(** * MLtune: configuration, policy resolution and dashboard bookkeeping

    A shallow embedding of the parts of the MLtune repository that carry
    its numeric and bookkeeping contracts:

    - [mltune/tuner/config.py]: [CoefficientConfig] (clamping and the
      autotune / auto-advance policy resolution) and [TunerConfig]
      (campaign sequence, validation pass, robot address);
    - [scripts/tuner_daemon.py]: the robot address computed by [main];
    - [dashboard/app.py]: [clamp_coefficient_value], the shot recording
      callback [handle_shot_recording] and the sidebar, navigation and
      bulk action callbacks;
    - [scripts/test_communication_simulated.py]: the mock table;
    - the shot polling operation of the robot link interface, whose
      module is not part of the sources at hand.

    Python numbers are modelled by [pynum]: a rational (every [int] and
    every finite binary64 [float] is one), the two infinities, or NaN.
    Comparison, two-argument [min]/[max] and [round] are exact operations
    on Python numbers, so the embedding follows them to the letter.
    Float arithmetic rounds: the sum, product and quotient of floats, the
    quotient of two [int]s and the conversion of an [int] to a float are
    the exact rational result rounded to the nearest binary64 number,
    ties to even ([nearest]). The two zeros of binary64 compare equal and
    are the one rational 0. *)

From Stdlib Require Import ZArith QArith Qround Qabs Qpower Lqa Lia String Ascii List Bool.
From stdpp Require Import gmap strings list pretty.

Set Default Proof Using "Type".

(** ** Python numbers *)

Module PyNum.

Inductive pynum : Type :=
| Fin (q : Q)
| PosInf
| NegInf
| NaN.

(** Three-way comparison; [None] when an operand is NaN (every ordered
    comparison with NaN is false in Python). *)
Definition num_compare (a b : pynum) : option comparison :=
  match a, b with
  | NaN, _ => None
  | _, NaN => None
  | Fin x, Fin y => Some (x ?= y)%Q
  | Fin _, PosInf => Some Lt
  | Fin _, NegInf => Some Gt
  | PosInf, PosInf => Some Eq
  | PosInf, _ => Some Gt
  | NegInf, NegInf => Some Eq
  | NegInf, _ => Some Lt
  end.

(** [a < b], [a > b], [a <= b], [a >= b], [a == b]. *)
Definition num_lt (a b : pynum) : bool :=
  match num_compare a b with Some Lt => true | _ => false end.
Definition num_gt (a b : pynum) : bool :=
  match num_compare a b with Some Gt => true | _ => false end.
Definition num_le (a b : pynum) : bool :=
  match num_compare a b with Some Lt | Some Eq => true | _ => false end.
Definition num_ge (a b : pynum) : bool :=
  match num_compare a b with Some Gt | Some Eq => true | _ => false end.
Definition num_eq (a b : pynum) : bool :=
  match num_compare a b with Some Eq => true | _ => false end.

(** The builtin [min(a, b)]: the first argument is kept unless the second
    one is strictly smaller. *)
Definition py_min (a b : pynum) : pynum := if num_lt b a then b else a.

(** The builtin [max(a, b)]: the first argument is kept unless the second
    one is strictly greater. *)
Definition py_max (a b : pynum) : pynum := if num_gt b a then b else a.

(** Exceptions the modelled code can raise. *)
Inductive exn : Type :=
| OverflowError
| ValueError
| TypeError
| KeyError
| ZeroDivisionError.

Inductive result (A : Type) : Type :=
| Ok (a : A)
| Raise (e : exn).
Arguments Ok {A} a.
Arguments Raise {A} e.

#[global] Instance result_ret : MRet result := fun A a => Ok a.
#[global] Instance result_bind : MBind result := fun A B k r =>
  match r with
  | Ok a => k a
  | Raise e => Raise e
  end.

(** Round half to even, on an exact rational. *)
Definition round_half_even (q : Q) : Z :=
  let f := Qfloor q in
  match (q - inject_Z f ?= 1 # 2)%Q with
  | Lt => f
  | Gt => (f + 1)%Z
  | Eq => if Z.even f then f else (f + 1)%Z
  end.

(** The builtin [round(x)] with one argument: an [int], or
    [OverflowError] on an infinity and [ValueError] on NaN. *)
Definition py_round (x : pynum) : result Z :=
  match x with
  | Fin q => Ok (round_half_even q)
  | PosInf | NegInf => Raise OverflowError
  | NaN => Raise ValueError
  end.

(** An [int] seen as a Python number. *)
Definition of_int (z : Z) : pynum := Fin (inject_Z z).

(** A finite number without fractional part. *)
Definition whole (x : pynum) : bool :=
  match x with
  | Fin q => Qeq_bool q (inject_Z (Qfloor q))
  | _ => false
  end.

(** *** Binary64 rounding

    A finite binary64 number is [m * 2^e] with an integer [|m| < 2^53]
    and [-1074 <= e <= 971]. [pow2 e] is [2^e]. *)
Definition pow2 (e : Z) : Q := (2 # 1) ^ e.

(** The exponent of the unit in the last place of the floats around a
    positive [q]: the [e] with [2^(e+52) <= q < 2^(e+53)], and -1074 in
    the subnormal range below [2^-1022]. The binary logarithms of the
    numerator and of the denominator give the exponent up to one. *)
Definition ulp_exponent (q : Q) : Z :=
  let guess := (Z.log2 (Qnum q) - Z.log2 (Zpos (Qden q)) - 52)%Z in
  let e := if Qle_bool (pow2 (guess + 52)) q then guess else (guess - 1)%Z in
  Z.max e (-1074).

(** A positive rational rounded to the nearest multiple of its unit in
    the last place, ties to the even multiple. *)
Definition nearest_pos (q : Q) : Q :=
  let e := ulp_exponent q in
  inject_Z (round_half_even (q / pow2 e)) * pow2 e.

(** Round to nearest, ties to even, with unbounded exponent range above:
    the result is [2^1024] or more where binary64 overflows. *)
Definition nearest (q : Q) : Q :=
  match Qnum q with
  | Z0 => 0
  | Zpos _ => nearest_pos q
  | Zneg _ => - nearest_pos (- q)
  end.

(** The float nearest to an exact result where Python raises on
    overflow: [float(n)] of an [int] (also when an [int] meets a float in
    an arithmetic operation) and the quotient [a / b] of two [int]s,
    which CPython rounds correctly. *)
Definition float_of (q : Q) : result pynum :=
  let r := nearest q in
  if Qle_bool (pow2 1024) (Qabs r) then Raise OverflowError else Ok (Fin r).

(** The float nearest to the exact result of an operation on floats,
    which overflows to an infinity. *)
Definition ieee_round (q : Q) : pynum :=
  let r := nearest q in
  if Qle_bool (pow2 1024) r then PosInf
  else if Qle_bool r (- pow2 1024) then NegInf
  else Fin r.

(** Float addition, multiplication and true division. *)
Definition num_add (a b : pynum) : pynum :=
  match a, b with
  | NaN, _ | _, NaN => NaN
  | Fin x, Fin y => ieee_round (x + y)
  | PosInf, NegInf | NegInf, PosInf => NaN
  | PosInf, _ | _, PosInf => PosInf
  | NegInf, _ | _, NegInf => NegInf
  end.

Definition num_mul (a b : pynum) : pynum :=
  match a, b with
  | NaN, _ | _, NaN => NaN
  | Fin x, Fin y => ieee_round (x * y)
  | Fin x, PosInf | PosInf, Fin x =>
      match (x ?= 0)%Q with Gt => PosInf | Lt => NegInf | Eq => NaN end
  | Fin x, NegInf | NegInf, Fin x =>
      match (x ?= 0)%Q with Gt => NegInf | Lt => PosInf | Eq => NaN end
  | PosInf, PosInf | NegInf, NegInf => PosInf
  | PosInf, NegInf | NegInf, PosInf => NegInf
  end.

Definition num_div (a b : pynum) : result pynum :=
  if num_eq b (of_int 0) then Raise ZeroDivisionError
  else Ok match a, b with
          | NaN, _ | _, NaN => NaN
          | Fin x, Fin y => ieee_round (x / y)
          | Fin _, _ => Fin 0
          | PosInf, Fin y => if num_gt b (of_int 0) then PosInf else NegInf
          | NegInf, Fin y => if num_gt b (of_int 0) then NegInf else PosInf
          | _, _ => NaN
          end.

(** The binary64 values of some decimal literals of the sources. *)
Definition lit_0_0001 : pynum := Fin (7378697629483821 # 73786976294838206464).
Definition lit_0_001 : pynum := Fin (1152921504606847 # 1152921504606846976).
Definition lit_0_003 : pynum := Fin (3458764513820541 # 1152921504606846976).
Definition lit_0_01 : pynum := Fin (5764607523034235 # 576460752303423488).
Definition lit_0_1 : pynum := Fin (3602879701896397 # 36028797018963968).
Definition lit_0_9 : pynum := Fin (8106479329266893 # 9007199254740992).
Definition lit_9_81 : pynum := Fin (5522539043063071 # 562949953421312).

(** The builtin [str] on an [int]: decimal digits, [-] before a negative
    number. *)
Definition py_str (z : Z) : string := pretty z.

End PyNum.
Export PyNum.

(** ** [mltune/tuner/config.py] *)

Module Config.

Record CoefficientConfig : Type := {
  name : string;
  default_value : pynum;
  min_value : pynum;
  max_value : pynum;
  initial_step_size : pynum;
  step_decay_rate : pynum;
  is_integer : bool;
  enabled : bool;
  nt_key : string;
  autotune_override : bool;
  autotune_enabled : bool;
  autotune_shot_threshold : Z;
  auto_advance_override : bool;
  auto_advance_on_success : bool;
  auto_advance_shot_threshold : Z
}.

(** [CoefficientConfig.clamp]. *)
Definition clamp (self : CoefficientConfig) (value : pynum) : result pynum :=
  let clamped := py_max (min_value self) (py_min (max_value self) value) in
  if is_integer self then
    z ← py_round clamped; Ok (of_int z)
  else Ok clamped.

(** [CoefficientConfig.get_effective_autotune_settings]. *)
Definition get_effective_autotune_settings (self : CoefficientConfig)
    (global_enabled : bool) (global_threshold : Z) (force_global : bool)
  : bool * Z :=
  if force_global then (global_enabled, global_threshold)
  else if autotune_override self then
    (autotune_enabled self, autotune_shot_threshold self)
  else (global_enabled, global_threshold).

(** [CoefficientConfig.get_effective_auto_advance_settings]. *)
Definition get_effective_auto_advance_settings (self : CoefficientConfig)
    (global_auto_advance : bool) (global_threshold : Z) (force_global : bool)
  : bool * Z :=
  if force_global then (global_auto_advance, global_threshold)
  else if auto_advance_override self then
    (auto_advance_on_success self, auto_advance_shot_threshold self)
  else (global_auto_advance, global_threshold).

(** [CoefficientConfig.get_effective_auto_advance]. *)
Definition get_effective_auto_advance (self : CoefficientConfig)
    (global_auto_advance : bool) (force_global : bool) : bool :=
  if force_global then global_auto_advance
  else if auto_advance_override self then auto_advance_on_success self
  else global_auto_advance.

(** The attributes of [TunerConfig] that the campaign sequence and the
    validation pass read. [COEFFICIENTS] is a [dict], kept in insertion
    order; its keys are the coefficient names. *)
Record TunerConfig : Type := {
  COEFFICIENTS : list (string * CoefficientConfig);
  TUNING_ORDER : list string;
  N_INITIAL_POINTS : Z;
  N_CALLS_PER_COEFFICIENT : Z;
  MAX_NT_WRITE_RATE_HZ : pynum;
  MAX_NT_READ_RATE_HZ : pynum;
  PHYSICAL_MAX_VELOCITY_MPS : pynum;
  PHYSICAL_MIN_VELOCITY_MPS : pynum;
  PHYSICAL_MAX_ANGLE_RAD : pynum;
  PHYSICAL_MIN_ANGLE_RAD : pynum;
  PHYSICAL_MAX_DISTANCE_M : pynum;
  PHYSICAL_MIN_DISTANCE_M : pynum;
  TUNER_UPDATE_RATE_HZ : pynum
}.

(** [d[key]] on an insertion-ordered [dict]. *)
Fixpoint dict_get {V : Type} (d : list (string * V)) (key : string) : option V :=
  match d with
  | [] => None
  | (k, v) :: rest => if String.eqb k key then Some v else dict_get rest key
  end.

(** [key in d]. *)
Definition dict_mem {V : Type} (d : list (string * V)) (key : string) : bool :=
  match dict_get d key with Some _ => true | None => false end.

(** [name in lst] on a list of strings. *)
Definition list_mem (x : string) (l : list string) : bool :=
  existsb (String.eqb x) l.

(** The address computed by [TunerConfig._load_toggles] from the team
    number: [f"10.{team_number // 100}.{team_number % 100}.2"]. *)
Definition NT_SERVER_IP (team_number : Z) : string :=
  "10." +:+ py_str (team_number `div` 100) +:+ "."
        +:+ py_str (team_number `mod` 100) +:+ ".2".

(** [TunerConfig.get_enabled_coefficients_in_order]. *)
Definition get_enabled_coefficients_in_order (self : TunerConfig)
  : list CoefficientConfig :=
  omap (fun name =>
          match dict_get (COEFFICIENTS self) name with
          | Some c => if enabled c then Some c else None
          | None => None
          end)
       (TUNING_ORDER self).

(** [if cond: warnings.append(msg)]. *)
Definition warn_if (cond : bool) (msg : string) : list string :=
  if cond then [msg] else [].

(** The four checks [validate_config] makes on one coefficient. *)
Definition coefficient_warnings (name : string) (coeff : CoefficientConfig)
  : list string :=
  warn_if (num_ge (min_value coeff) (max_value coeff))
          (name +:+ ": min_value must be < max_value")
  ++ warn_if (num_lt (default_value coeff) (min_value coeff)
              || num_gt (default_value coeff) (max_value coeff))
             (name +:+ ": default_value outside valid range")
  ++ warn_if (num_le (initial_step_size coeff) (of_int 0))
             (name +:+ ": initial_step_size must be positive")
  ++ warn_if (negb (num_lt (of_int 0) (step_decay_rate coeff)
                    && num_le (step_decay_rate coeff) (of_int 1)))
             (name +:+ ": step_decay_rate must be in (0, 1]").

(** The names of the enabled coefficients, in [dict] order. *)
Definition enabled_coeffs (self : TunerConfig) : list string :=
  omap (fun '(name, cfg) => if enabled cfg then Some name else None)
       (COEFFICIENTS self).

Definition order_warnings (self : TunerConfig) : list string :=
  flat_map (fun name =>
              warn_if (negb (list_mem name (TUNING_ORDER self)))
                      ("Enabled coefficient '" +:+ name
                         +:+ "' not in TUNING_ORDER"))
           (enabled_coeffs self)
  ++ flat_map (fun name =>
                 warn_if (negb (dict_mem (COEFFICIENTS self) name))
                         ("Coefficient '" +:+ name
                            +:+ "' in TUNING_ORDER but not defined"))
              (TUNING_ORDER self).

Definition physical_limit_warnings (self : TunerConfig) : list string :=
  warn_if (num_ge (PHYSICAL_MIN_VELOCITY_MPS self) (PHYSICAL_MAX_VELOCITY_MPS self))
          "PHYSICAL_MIN_VELOCITY_MPS >= PHYSICAL_MAX_VELOCITY_MPS"
  ++ warn_if (num_ge (PHYSICAL_MIN_ANGLE_RAD self) (PHYSICAL_MAX_ANGLE_RAD self))
             "PHYSICAL_MIN_ANGLE_RAD >= PHYSICAL_MAX_ANGLE_RAD"
  ++ warn_if (num_ge (PHYSICAL_MIN_DISTANCE_M self) (PHYSICAL_MAX_DISTANCE_M self))
             "PHYSICAL_MIN_DISTANCE_M >= PHYSICAL_MAX_DISTANCE_M".

Definition system_parameter_warnings (self : TunerConfig) : list string :=
  warn_if (N_INITIAL_POINTS self <? 1)%Z "N_INITIAL_POINTS must be >= 1"
  ++ warn_if (N_CALLS_PER_COEFFICIENT self <? N_INITIAL_POINTS self)%Z
             "N_CALLS_PER_COEFFICIENT must be >= N_INITIAL_POINTS"
  ++ warn_if (num_le (TUNER_UPDATE_RATE_HZ self) (of_int 0))
             "TUNER_UPDATE_RATE_HZ must be positive"
  ++ warn_if (num_le (MAX_NT_WRITE_RATE_HZ self) (of_int 0))
             "MAX_NT_WRITE_RATE_HZ must be positive"
  ++ warn_if (num_le (MAX_NT_READ_RATE_HZ self) (of_int 0))
             "MAX_NT_READ_RATE_HZ must be positive".

(** [TunerConfig.validate_config]: the warnings, in the order in which
    the method appends them. *)
Definition validate_config (self : TunerConfig) : list string :=
  order_warnings self
  ++ flat_map (fun '(name, coeff) => coefficient_warnings name coeff)
              (COEFFICIENTS self)
  ++ physical_limit_warnings self
  ++ system_parameter_warnings self.

End Config.

(** ** [scripts/tuner_daemon.py] *)

Module Daemon.

(** [s[:n]] and [s[n:]] for a non-negative [n]. *)
Fixpoint str_take (n : nat) (s : string) : string :=
  match n, s with
  | S n', String c rest => String c (str_take n' rest)
  | _, _ => EmptyString
  end.

Fixpoint str_drop (n : nat) (s : string) : string :=
  match n, s with
  | S n', String _ rest => str_drop n' rest
  | _, _ => s
  end.

Fixpoint zeros (n : nat) : string :=
  match n with
  | O => EmptyString
  | S n' => String "0" (zeros n')
  end.

(** [str.zfill(width)]: zeros are inserted on the left, after a leading
    sign if there is one. *)
Definition zfill (width : nat) (s : string) : string :=
  let fill := zeros (width - String.length s) in
  match s with
  | String c rest =>
      if (Ascii.eqb c "+" || Ascii.eqb c "-")%bool
      then String c (fill +:+ rest)
      else fill +:+ s
  | EmptyString => fill
  end.

(** The robot address computed by [main]; [None] stands for
    auto-detection (team number not positive). *)
Definition server_ip (team_number : Z) : option string :=
  if (team_number >? 0)%Z then
    let team_str := zfill 4 (py_str team_number) in
    Some ("10." +:+ str_take 2 team_str +:+ "." +:+ str_drop 2 team_str +:+ ".2")
  else None.

End Daemon.

(** ** [dashboard/app.py] *)

Module Dashboard.

(** The JSON values held by the dashboard state store. [VOther] stands
    for the containers (lists, objects), on which arithmetic raises
    [TypeError]. *)
Inductive pyval : Type :=
| VNone
| VBool (b : bool)
| VInt (z : Z)
| VFloat (x : pynum)
| VStr (s : string)
| VOther.

(** [d[key]]. *)
Definition getitem {V : Type} (d : gmap string V) (key : string) : result V :=
  match d !! key with
  | Some v => Ok v
  | None => Raise KeyError
  end.

Definition bounds_entry (step lo hi : pynum) : gmap string pynum :=
  {[ "step" := step; "min" := lo; "max" := hi ]}.

Definition COEFFICIENT_CONFIG : gmap string (gmap string pynum) :=
  {[ "kDragCoefficient" := bounds_entry lit_0_0001 lit_0_001 lit_0_01;
     "kGravity" := bounds_entry lit_0_01 (of_int 9) (of_int 10);
     "kShotHeight" := bounds_entry lit_0_01 (of_int 0) (of_int 3);
     "kTargetHeight" := bounds_entry lit_0_01 (of_int 0) (of_int 5);
     "kShooterAngle" := bounds_entry (of_int 1) (of_int 0) (of_int 90);
     "kShooterRPM" := bounds_entry (of_int 50) (of_int 0) (of_int 6000);
     "kExitVelocity" := bounds_entry lit_0_1 (of_int 0) (of_int 30) ]}.

(** The fallback [{'min': 0, 'max': 100}]. *)
Definition fallback_bounds : gmap string pynum :=
  {[ "min" := of_int 0; "max" := of_int 100 ]}.

(** [clamp_coefficient_value]. *)
Definition clamp_coefficient_value (value : pynum) (coeff_name : string)
  : result pynum :=
  let config := default fallback_bounds (COEFFICIENT_CONFIG !! coeff_name) in
  lo ← getitem config "min";
  hi ← getitem config "max";
  Ok (py_max lo (py_min value hi)).

(** Arithmetic and comparison on state values. [bool] is a subclass of
    [int]. *)
Definition to_num (v : pyval) : result pynum :=
  match v with
  | VBool b => Ok (of_int (Z.b2z b))
  | VInt z => Ok (of_int z)
  | VFloat x => Ok x
  | _ => Raise TypeError
  end.

(** The [int] behind an [int] or a [bool]. *)
Definition as_int (v : pyval) : option Z :=
  match v with
  | VBool b => Some (Z.b2z b)
  | VInt z => Some z
  | _ => None
  end.

(** The operand of a float operation: a float as it is, an [int]
    converted, with [OverflowError] beyond the float range. *)
Definition to_float (v : pyval) : result pynum :=
  match v with
  | VFloat x => Ok x
  | _ => match as_int v with
         | Some z => float_of (inject_Z z)
         | None => Raise TypeError
         end
  end.

(** [v + 1]. *)
Definition py_add_one (v : pyval) : result pyval :=
  match v with
  | VBool b => Ok (VInt (Z.b2z b + 1))
  | VInt z => Ok (VInt (z + 1))
  | VFloat x => Ok (VFloat (num_add x (of_int 1)))
  | _ => Raise TypeError
  end.

(** [v > 0]. *)
Definition py_gt_zero (v : pyval) : result bool :=
  x ← to_num v; Ok (num_gt x (of_int 0)).

(** [a / b]. Two [int]s give the float nearest to their exact quotient,
    [ZeroDivisionError] on a zero divisor and [OverflowError] on a
    quotient beyond the float range. With a float among the operands the
    other one is converted and the floats are divided. *)
Definition py_truediv (a b : pyval) : result pyval :=
  match as_int a, as_int b with
  | Some x, Some y =>
      if (y =? 0)%Z then Raise ZeroDivisionError
      else q ← float_of (inject_Z x / inject_Z y); Ok (VFloat q)
  | _, _ =>
      _ ← to_num a;
      _ ← to_num b;
      x ← to_float a;
      y ← to_float b;
      q ← num_div x y;
      Ok (VFloat q)
  end.

(** [s.split(sep)[0]]: the text before the first separator. *)
Fixpoint split_head (sep : ascii) (s : string) : string :=
  match s with
  | EmptyString => EmptyString
  | String c rest =>
      if Ascii.eqb c sep then EmptyString else String c (split_head sep rest)
  end.

(** [state.get(key, 0)]. *)
Definition get_or_zero (state : gmap string pyval) (key : string) : pyval :=
  default (VInt 0) (state !! key).

(** [handle_shot_recording], as a function of the callback context
    ([triggered]: the [prop_id]s of [ctx.triggered]) and of the state
    store. The coefficient snapshot, the console output and the hand-over
    to the tuner backend do not touch the returned state; exceptions of
    the backend are caught inside the callback. *)
Definition handle_shot_recording (triggered : list string)
    (state : gmap string pyval) : result (gmap string pyval) :=
  match triggered with
  | [] => Ok state
  | prop_id :: _ =>
      let button_id := split_head "." prop_id in
      let hit := String.eqb button_id "record-hit-btn" in
      count ← py_add_one (get_or_zero state "shot_count");
      let state := <["shot_count" := count]> state in
      '(hits, state) ←
        (if hit then
           hits ← py_add_one (get_or_zero state "total_hits");
           Ok (hits, <["total_hits" := hits]> state)
         else Ok (get_or_zero state "total_hits", state));
      nonempty ← py_gt_zero count;
      rate ← (if (nonempty : bool) then py_truediv hits count else Ok (VFloat (of_int 0)));
      Ok (<["success_rate" := rate]> state)
  end.

End Dashboard.

(** ** The robot link interface: shot polling *)

Module RobotLink.

(** Modelled from the spec: the observation returned by the shot polling
    operation (the module [nt_interface.py] that defines it is missing
    from the sources). One data point: hit, distance, exit velocity and
    timestamp. *)
Record ShotObservation : Type := {
  hit : bool;
  distance : pynum;
  exit_velocity : pynum;
  timestamp : pynum
}.

(** Modelled from the spec: what one poll sees of the remote table. The
    shot timestamp key may never have been written by the peer. *)
Record RemoteTable : Type := {
  shot_timestamp_key : option pynum;
  hit_key : bool;
  distance_key : pynum;
  exit_velocity_key : pynum
}.

(** Modelled from the spec: the interface remembers the timestamp it
    observed last. *)
Record LinkState : Type := {
  last_shot_timestamp : pynum
}.

(** Modelled from the spec: [read_shot_data] of the robot link interface
    ([nt_interface.py] is missing from the sources). It polls the shot
    timestamp key and returns a new observation only if the timestamp is
    strictly greater than the last observed one, reading the other shot
    fields only then; otherwise it returns [None]. *)
Definition read_shot_data (st : LinkState) (tbl : RemoteTable)
  : option ShotObservation * LinkState :=
  match shot_timestamp_key tbl with
  | None => (None, st)
  | Some ts =>
      if num_gt ts (last_shot_timestamp st) then
        (Some {| hit := hit_key tbl;
                 distance := distance_key tbl;
                 exit_velocity := exit_velocity_key tbl;
                 timestamp := ts |},
         {| last_shot_timestamp := ts |})
      else (None, st)
  end.

(** A sequence of polls, one per snapshot of the remote table. *)
Fixpoint poll_all (st : LinkState) (tables : list RemoteTable)
  : list (option ShotObservation) :=
  match tables with
  | [] => []
  | tbl :: rest =>
      let '(obs, st') := read_shot_data st tbl in
      obs :: poll_all st' rest
  end.

(** The timestamps of the observations a sequence of polls returned. *)
Definition returned_timestamps (results : list (option ShotObservation))
  : list pynum :=
  omap (fmap timestamp) results.

(** Each element is strictly greater than the one before it, the first
    one than [prev]. *)
Fixpoint strictly_increasing_from (prev : pynum) (l : list pynum) : bool :=
  match l with
  | [] => true
  | x :: rest => num_gt x prev && strictly_increasing_from x rest
  end.

End RobotLink.

(** ** Specification-side definitions *)

Module Spec.

Import Config.

(** The policy resolution rule as the specification words it:
    [effective = force_global ? global : (override_present ? local : global)]. *)
Definition resolve_policy {A : Type} (force_global override_present : bool)
    (local global : A) : A :=
  if force_global then global
  else if override_present then local
  else global.

(** The field renaming under which the two policy resolutions coincide:
    the auto-advance fields are read where the autotune ones were. *)
Definition auto_advance_as_autotune (c : CoefficientConfig) : CoefficientConfig :=
  {| name := name c;
     default_value := default_value c;
     min_value := min_value c;
     max_value := max_value c;
     initial_step_size := initial_step_size c;
     step_decay_rate := step_decay_rate c;
     is_integer := is_integer c;
     enabled := enabled c;
     nt_key := nt_key c;
     autotune_override := auto_advance_override c;
     autotune_enabled := auto_advance_on_success c;
     autotune_shot_threshold := auto_advance_shot_threshold c;
     auto_advance_override := autotune_override c;
     auto_advance_on_success := autotune_enabled c;
     auto_advance_shot_threshold := autotune_shot_threshold c |}.

(** [r] is [v] clamped to [[lo, hi]]: inside the bounds, equal (as a
    number) to [v] when [v] is inside, to the bound [v] lies beyond
    otherwise. *)
Definition clamped_to (lo hi v r : pynum) : Prop :=
  num_le lo r = true /\ num_le r hi = true /\
  (num_le lo v = true -> num_le v hi = true -> num_eq r v = true) /\
  (num_lt v lo = true -> num_eq r lo = true) /\
  (num_gt v hi = true -> num_eq r hi = true).

(** Counting the configuration invariants a configuration violates. *)
Definition count_if (b : bool) : nat := if b then 1 else 0.

Definition coefficient_violations (c : CoefficientConfig) : nat :=
  count_if (num_ge (min_value c) (max_value c))
  + count_if (num_lt (default_value c) (min_value c)
              || num_gt (default_value c) (max_value c))
  + count_if (num_le (initial_step_size c) (of_int 0))
  + count_if (negb (num_lt (of_int 0) (step_decay_rate c)
                    && num_le (step_decay_rate c) (of_int 1))).

Definition order_violations (self : TunerConfig) : nat :=
  length (List.filter (fun name => negb (list_mem name (TUNING_ORDER self)))
                      (enabled_coeffs self))
  + length (List.filter (fun name => negb (dict_mem (COEFFICIENTS self) name))
                        (TUNING_ORDER self)).

Definition parameter_violations (self : TunerConfig) : nat :=
  count_if (num_ge (PHYSICAL_MIN_VELOCITY_MPS self) (PHYSICAL_MAX_VELOCITY_MPS self))
  + count_if (num_ge (PHYSICAL_MIN_ANGLE_RAD self) (PHYSICAL_MAX_ANGLE_RAD self))
  + count_if (num_ge (PHYSICAL_MIN_DISTANCE_M self) (PHYSICAL_MAX_DISTANCE_M self))
  + count_if (N_INITIAL_POINTS self <? 1)%Z
  + count_if (N_CALLS_PER_COEFFICIENT self <? N_INITIAL_POINTS self)%Z
  + count_if (num_le (TUNER_UPDATE_RATE_HZ self) (of_int 0))
  + count_if (num_le (MAX_NT_WRITE_RATE_HZ self) (of_int 0))
  + count_if (num_le (MAX_NT_READ_RATE_HZ self) (of_int 0)).

Definition violation_count (self : TunerConfig) : nat :=
  order_violations self
  + list_sum (map (fun entry => coefficient_violations (snd entry))
                  (COEFFICIENTS self))
  + parameter_violations self.

(** The invariants of one coefficient: [min < max], [default] within
    [[min, max]], a positive step, a decay rate in (0, 1]. *)
Definition coefficient_ok (c : CoefficientConfig) : Prop :=
  num_ge (min_value c) (max_value c) = false
  /\ num_lt (default_value c) (min_value c) = false
  /\ num_gt (default_value c) (max_value c) = false
  /\ num_le (initial_step_size c) (of_int 0) = false
  /\ num_lt (of_int 0) (step_decay_rate c) = true
  /\ num_le (step_decay_rate c) (of_int 1) = true.

(** Every enabled coefficient is in the order, and every name of the
    order is defined. *)
Definition order_ok (self : TunerConfig) : Prop :=
  (forall name c, In (name, c) (COEFFICIENTS self) -> enabled c = true ->
                  list_mem name (TUNING_ORDER self) = true)
  /\ (forall name, In name (TUNING_ORDER self) ->
                   dict_mem (COEFFICIENTS self) name = true).

(** Valid physical limits and system parameters. *)
Definition parameters_ok (self : TunerConfig) : Prop :=
  num_ge (PHYSICAL_MIN_VELOCITY_MPS self) (PHYSICAL_MAX_VELOCITY_MPS self) = false
  /\ num_ge (PHYSICAL_MIN_ANGLE_RAD self) (PHYSICAL_MAX_ANGLE_RAD self) = false
  /\ num_ge (PHYSICAL_MIN_DISTANCE_M self) (PHYSICAL_MAX_DISTANCE_M self) = false
  /\ (1 <= N_INITIAL_POINTS self)%Z
  /\ (N_INITIAL_POINTS self <= N_CALLS_PER_COEFFICIENT self)%Z
  /\ num_le (TUNER_UPDATE_RATE_HZ self) (of_int 0) = false
  /\ num_le (MAX_NT_WRITE_RATE_HZ self) (of_int 0) = false
  /\ num_le (MAX_NT_READ_RATE_HZ self) (of_int 0) = false.

End Spec.

(** ** Concrete inputs *)

Module Examples.

Import Config Dashboard RobotLink.

(** A coefficient with the given bounds and rounding flag; the other
    fields take the defaults of the dataclass. *)
Definition coefficient (nm : string) (lo hi dflt step : pynum) (int_valued en : bool)
  : CoefficientConfig :=
  {| name := nm;
     default_value := dflt;
     min_value := lo;
     max_value := hi;
     initial_step_size := step;
     step_decay_rate := lit_0_9;
     is_integer := int_valued;
     enabled := en;
     nt_key := "/Tuning/" +:+ nm;
     autotune_override := false;
     autotune_enabled := false;
     autotune_shot_threshold := 10;
     auto_advance_override := false;
     auto_advance_on_success := false;
     auto_advance_shot_threshold := 10 |}.

(** An integer coefficient whose bounds are 0.5 and 1.5. *)
Definition half_bounded : CoefficientConfig :=
  coefficient "kHalf" (Fin (1 # 2)) (Fin (3 # 2)) (of_int 1) (of_int 1) true true.

(** An integer coefficient with whole bounds, as [kShooterRPM]. *)
Definition rpm : CoefficientConfig :=
  coefficient "kShooterRPM" (of_int 0) (of_int 6000) (of_int 3000) (of_int 50) true true.

(** A real-valued coefficient, as [kDragCoefficient]. *)
Definition drag : CoefficientConfig :=
  coefficient "kDragCoefficient" lit_0_001 lit_0_01 lit_0_003 lit_0_0001 false true.

(** A coefficient with a per-coefficient override of both policies. *)
Definition overriding : CoefficientConfig :=
  {| name := "kGravity";
     default_value := lit_9_81;
     min_value := of_int 9;
     max_value := of_int 10;
     initial_step_size := lit_0_01;
     step_decay_rate := lit_0_9;
     is_integer := false;
     enabled := true;
     nt_key := "/Tuning/kGravity";
     autotune_override := true;
     autotune_enabled := true;
     autotune_shot_threshold := 25;
     auto_advance_override := true;
     auto_advance_on_success := true;
     auto_advance_shot_threshold := 7 |}.

(** An enabled coefficient with reversed bounds and a negative step. *)
Definition reversed : CoefficientConfig :=
  coefficient "kReversed" (of_int 5) (of_int 1) (of_int 3) (of_int (-1)) false true.

(** A configuration around a table of coefficients and a tuning order,
    with valid physical limits and system parameters. *)
Definition tuner_config (coeffs : list (string * CoefficientConfig))
    (order : list string) : TunerConfig :=
  {| COEFFICIENTS := coeffs;
     TUNING_ORDER := order;
     N_INITIAL_POINTS := 5;
     N_CALLS_PER_COEFFICIENT := 20;
     MAX_NT_WRITE_RATE_HZ := of_int 5;
     MAX_NT_READ_RATE_HZ := of_int 20;
     PHYSICAL_MAX_VELOCITY_MPS := of_int 30;
     PHYSICAL_MIN_VELOCITY_MPS := of_int 5;
     PHYSICAL_MAX_ANGLE_RAD := of_int 2;
     PHYSICAL_MIN_ANGLE_RAD := of_int 0;
     PHYSICAL_MAX_DISTANCE_M := of_int 10;
     PHYSICAL_MIN_DISTANCE_M := of_int 1;
     TUNER_UPDATE_RATE_HZ := of_int 10 |}.

Definition reversed_config : TunerConfig :=
  tuner_config [("kReversed", reversed)] ["kReversed"].

Definition sound_config : TunerConfig :=
  tuner_config [("kDragCoefficient", drag); ("kShooterRPM", rpm)]
               ["kDragCoefficient"; "kShooterRPM"].

(** An enabled coefficient left out of the order, and a name of the
    order that is not defined. *)
Definition unordered_config : TunerConfig :=
  tuner_config [("kDragCoefficient", drag); ("kReversed", reversed)]
               ["kDragCoefficient"; "kGhost"].

(** A state store after three shots, one of them a hit. *)
Definition three_shots : gmap string pyval :=
  {[ "mode" := VStr "normal";
     "shot_count" := VInt 3;
     "total_hits" := VInt 1;
     "success_rate" := VFloat (Fin (1 # 3)) ]}.

(** The remote table after the peer logged a shot at time [ts]. *)
Definition shot_at (ts : Z) (was_hit : bool) : RemoteTable :=
  {| shot_timestamp_key := Some (of_int ts);
     hit_key := was_hit;
     distance_key := of_int 5;
     exit_velocity_key := of_int 12 |}.

(** An interface that has seen nothing yet. *)
Definition fresh_link : LinkState := {| last_shot_timestamp := of_int 0 |}.

End Examples.

(** ** [dashboard/app.py]: further callbacks *)

Module Controls.

Import Dashboard.

(** [sub in s] on strings. *)
Fixpoint str_contains (sub s : string) : bool :=
  String.prefix sub s
  || match s with
     | EmptyString => false
     | String _ rest => str_contains sub rest
     end.

(** [toggle_sidebar]. [n_clicks] is [None] or an [int], [current_class]
    is [None] or a string; both are tested for truth. *)
Definition toggle_sidebar (n_clicks : option Z) (current_class : option string)
  : string :=
  let clicked := match n_clicks with
                 | Some n => negb (n =? 0)%Z
                 | None => false
                 end in
  if clicked then
    match current_class with
    | Some cls =>
        if negb (String.eqb cls "") && str_contains "collapsed" cls
        then "sidebar"
        else "sidebar collapsed"
    | None => "sidebar collapsed"
    end
  else
    match current_class with
    | Some cls => if String.eqb cls "" then "sidebar" else cls
    | None => "sidebar"
    end.

(** The list [coefficients] of [handle_coefficient_navigation]. *)
Definition coefficients : list string :=
  ["kDragCoefficient"; "kGravity"; "kShotHeight"; "kTargetHeight";
   "kShooterAngle"; "kShooterRPM"; "kExitVelocity"].

(** [lst.index(x)], for an [x] that is in the list. *)
Fixpoint list_index (x : string) (l : list string) : nat :=
  match l with
  | [] => 0
  | y :: rest => if String.eqb y x then 0 else S (list_index x rest)
  end.

(** [coefficients.index(v) if v in coefficients else 0]; a value that is
    not a string equals no element of the list. *)
Definition current_index (v : pyval) : Z :=
  match v with
  | VStr s =>
      if Config.list_mem s coefficients
      then Z.of_nat (list_index s coefficients)
      else 0
  | _ => 0
  end.

(** [handle_coefficient_navigation]. The new index is taken modulo the
    length of the list, so [coefficients[new_idx]] is always defined. *)
Definition handle_coefficient_navigation (triggered : list string)
    (state : gmap string pyval) : result (gmap string pyval) :=
  match triggered with
  | [] => Ok state
  | prop_id :: _ =>
      let button_id := split_head "." prop_id in
      current ← getitem state "current_coefficient";
      let current_idx := current_index current in
      if String.eqb button_id "prev-coeff-btn" then
        let new_idx := ((current_idx - 1) `mod` Z.of_nat (length coefficients))%Z in
        Ok (<["current_coefficient" :=
                VStr (nth (Z.to_nat new_idx) coefficients "")]> state)
      else if String.eqb button_id "next-coeff-btn" then
        let new_idx := ((current_idx + 1) `mod` Z.of_nat (length coefficients))%Z in
        Ok (<["current_coefficient" :=
                VStr (nth (Z.to_nat new_idx) coefficients "")]> state)
      else Ok state
  end.

(** The binary64 value of the literal [1.1]. *)
Definition lit_1_1 : pynum := Fin (2476979795053773 # 2251799813685248).

(** [COEFFICIENT_DEFAULTS], in insertion order. *)
Definition COEFFICIENT_DEFAULTS : list (string * pynum) :=
  [("kDragCoefficient", lit_0_003);
   ("kGravity", lit_9_81);
   ("kShotHeight", of_int 1);
   ("kTargetHeight", Fin (5 # 2));
   ("kShooterAngle", of_int 45);
   ("kShooterRPM", of_int 3000);
   ("kExitVelocity", of_int 15)].

(** [COEFFICIENT_NAMES = list(COEFFICIENT_DEFAULTS.keys())]. *)
Definition COEFFICIENT_NAMES : list string := map fst COEFFICIENT_DEFAULTS.

(** [[f(x) for x in l]] where [f] may raise. *)
Fixpoint traverse {A B : Type} (f : A -> result B) (l : list A) : result (list B) :=
  match l with
  | [] => Ok []
  | x :: rest => y ← f x; ys ← traverse f rest; Ok (y :: ys)
  end.

(** The value of a slider: the number the browser sends, an [int] or a
    float. *)
Inductive slider : Type :=
| SInt (z : Z)
| SFloat (x : pynum).

(** A slider value as a number. *)
Definition slider_num (v : slider) : pynum :=
  match v with
  | SInt z => of_int z
  | SFloat x => x
  end.

(** [v * factor] with a float [factor]: an [int] is converted to a float
    first, which raises [OverflowError] beyond the float range; the
    product of the two floats is rounded and overflows to an infinity. *)
Definition py_mul_float (v : slider) (factor : pynum) : result pynum :=
  match v with
  | SInt z => x ← float_of (inject_Z z); Ok (num_mul x factor)
  | SFloat x => Ok (num_mul x factor)
  end.

(** [handle_coefficient_bulk_actions]: the seven new slider values and
    the state, or [None] for [no_update]. The seven [State] arguments
    arrive as [current_values]. *)
Definition handle_coefficient_bulk_actions (triggered : list string)
    (drag_val grav_val shot_val target_val angle_val rpm_val velocity_val : slider)
    (state : gmap string pyval)
  : result (option (list pynum * gmap string pyval)) :=
  match triggered with
  | [] => Ok None
  | prop_id :: _ =>
      let button_id := split_head "." prop_id in
      let current_values :=
        [drag_val; grav_val; shot_val; target_val; angle_val; rpm_val; velocity_val] in
      if String.eqb button_id "increase-all-btn" then
        new_values ← traverse
          (fun '(v, name) => x ← py_mul_float v lit_1_1; clamp_coefficient_value x name)
          (zip current_values COEFFICIENT_NAMES);
        Ok (Some (new_values, state))
      else if String.eqb button_id "decrease-all-btn" then
        new_values ← traverse
          (fun '(v, name) => x ← py_mul_float v lit_0_9; clamp_coefficient_value x name)
          (zip current_values COEFFICIENT_NAMES);
        Ok (Some (new_values, state))
      else if String.eqb button_id "reset-all-coeff-btn" then
        let state := <["coefficient_values" := VOther]> state in
        default_values ← traverse
          (fun name => match Config.dict_get COEFFICIENT_DEFAULTS name with
                       | Some v => Ok v
                       | None => Raise KeyError
                       end)
          COEFFICIENT_NAMES;
        Ok (Some (default_values, state))
      else Ok (Some (map slider_num current_values, state))
  end.

End Controls.

(** ** [scripts/test_communication_simulated.py]: the mock table *)

Module MockNT.

Import Dashboard.

(** [MockNetworkTable]: a base path and the entries stored under full
    paths. *)
Record MockNetworkTable : Type := {
  base_path : string;
  data : gmap string pyval
}.

(** [f"{self.base_path}/{key}"]. *)
Definition full_path (self : MockNetworkTable) (key : string) : string :=
  base_path self +:+ "/" +:+ key.

(** [putNumber], [putBoolean] and [putString] share one body: the value
    is stored under the full path, which is returned. *)
Definition put (self : MockNetworkTable) (key : string) (value : pyval)
  : string * MockNetworkTable :=
  (full_path self key,
   {| base_path := base_path self;
      data := <[full_path self key := value]> (data self) |}).

(** [getNumber], [getBoolean] and [getString] share one body. *)
Definition get (self : MockNetworkTable) (key : string) (dflt : pyval) : pyval :=
  default dflt (data self !! full_path self key).

End MockNT.

(** ** Specification-side definitions for the further code *)

Module Spec2.

Import Config Dashboard Controls.

(** The class of the sidebar says it is collapsed. *)
Definition collapsed (current_class : option string) : bool :=
  match current_class with
  | Some cls => str_contains "collapsed" cls
  | None => false
  end.

(** [r] lies within the bounds that [COEFFICIENT_CONFIG] gives [name]. *)
Definition within_configured_bounds (name : string) (r : pynum) : Prop :=
  exists (config : gmap string pynum) (lo hi : pynum),
    COEFFICIENT_CONFIG !! name = Some config
    /\ config !! "min" = Some lo
    /\ config !! "max" = Some hi
    /\ num_le lo r = true
    /\ num_le r hi = true.

(** A finite binary64 number: [m * 2^e] with [|m| < 2^53] and
    [-1074 <= e <= 971]. *)
Definition binary64 (q : Q) : Prop :=
  exists m e : Z,
    (Z.abs m < 2 ^ 53)%Z /\ (-1074 <= e <= 971)%Z /\ (q == inject_Z m * pow2 e)%Q.

(** The overflow threshold of the conversion to a float: halfway between
    the largest float [2^1024 - 2^971] and [2^1024]. *)
Definition overflow_threshold : Z := (2 ^ 1024 - 2 ^ 970)%Z.

(** A slider value that converts to a float: a float, or an [int] below
    the overflow threshold in magnitude. *)
Definition in_float_range (v : slider) : Prop :=
  match v with
  | SInt z => (Z.abs z < overflow_threshold)%Z
  | SFloat _ => True
  end.

(** A name of [TUNING_ORDER] starts a campaign: it is defined and its
    coefficient is enabled. *)
Definition starts_campaign (self : TunerConfig) (name : string) : bool :=
  match dict_get (COEFFICIENTS self) name with
  | Some c => enabled c
  | None => false
  end.

End Spec2.

(** ** Further concrete inputs *)

Module Examples2.

Import Dashboard MockNT.

(** The state store after five hits in eight shots and a press on the
    reset-data button, which clears [shot_count] and [success_rate] and
    leaves [total_hits]. *)
Definition after_reset : gmap string pyval :=
  {[ "shot_count" := VInt 0;
     "total_hits" := VInt 5;
     "success_rate" := VFloat (of_int 0);
     "coefficient_values" := VOther ]}.

(** A state store whose [total_hits] is beyond the float range, after a
    reset of [shot_count]. *)
Definition astronomic_hits : gmap string pyval :=
  {[ "shot_count" := VInt 0;
     "total_hits" := VInt (2 ^ 1024);
     "success_rate" := VFloat (of_int 0) ]}.

(** A coefficient whose lower bound is NaN, with a valid step and decay
    rate. *)
Definition nan_bounded (int_valued : bool) : Config.CoefficientConfig :=
  Examples.coefficient "kNaN" NaN (of_int 10) (of_int 3) (of_int 1) int_valued true.

(** A state store that shows the third coefficient. *)
Definition at_shot_height : gmap string pyval :=
  {[ "mode" := VStr "normal"; "current_coefficient" := VStr "kShotHeight" ]}.

(** The mock table [/FiringSolver] holding one entry. *)
Definition firing_solver_table : MockNetworkTable :=
  {| base_path := "/FiringSolver";
     data := {[ "/FiringSolver/Hit" := VBool true ]} |}.

End Examples2.

Import Config Daemon Dashboard RobotLink Spec Examples.
Import Controls MockNT Spec2 Examples2.

(** ** Facts on Python numbers *)

(** Case analysis on the operands of a chain of comparisons: comparisons
    of rationals are replaced by their three outcomes, and linear
    arithmetic closes each case. *)
Ltac compare_cases :=
  repeat match goal with
         | H : context [(?x ?= ?y)%Q] |- _ => destruct (Qcompare_spec x y)
         | |- context [(?x ?= ?y)%Q] => destruct (Qcompare_spec x y)
         end.

Ltac num_crush :=
  unfold py_max, py_min, num_lt, num_gt, num_le, num_ge, num_eq, num_compare in *;
  compare_cases; simpl in *;
  try discriminate; try reflexivity; try lra.

Section PyNumFacts.

Local Open Scope Q_scope.

Lemma Qcompare_refl (x : Q) : (x ?= x) = Eq.
Proof. apply Qeq_alt. reflexivity. Qed.

(** [max(lo, min(hi, v))], the expression of [CoefficientConfig.clamp]. *)
Lemma py_max_min_between (lo hi v : pynum) :
  num_le lo hi = true ->
  num_le lo (py_max lo (py_min hi v)) = true
  /\ num_le (py_max lo (py_min hi v)) hi = true.
Proof.
  intros H. destruct lo, hi, v; split; num_crush.
Qed.

(** [max(lo, min(v, hi))], the expression of [clamp_coefficient_value]. *)
Lemma py_max_min_clamped (lo hi v : pynum) :
  num_le lo hi = true ->
  clamped_to lo hi v (py_max lo (py_min v hi)).
Proof.
  intros H. unfold clamped_to.
  destruct lo, hi, v; repeat split; intros; num_crush.
Qed.

Lemma floor_le_round (q : Q) : (Qfloor q <= round_half_even q)%Z.
Proof.
  unfold round_half_even.
  destruct (q - inject_Z (Qfloor q) ?= 1 # 2); [destruct (Z.even _)|..]; lia.
Qed.

Lemma round_half_even_between (q : Q) (lo hi : Z) :
  inject_Z lo <= q -> q <= inject_Z hi ->
  (lo <= round_half_even q <= hi)%Z.
Proof.
  intros Hlo Hhi.
  assert (Hf : (lo <= Qfloor q)%Z).
  { rewrite <- (Qfloor_Z lo). now apply Qfloor_resp_le. }
  split; [pose proof (floor_le_round q); lia|].
  pose proof (Qfloor_le q) as Hfl.
  assert (Hfh : (Qfloor q <= hi)%Z).
  { rewrite Zle_Qle. now apply Qle_trans with q. }
  assert (Hstep : 0 < q - inject_Z (Qfloor q) -> (Qfloor q + 1 <= hi)%Z).
  { intros Hpos. cut (Qfloor q < hi)%Z; [lia|].
    rewrite Zlt_Qlt. apply Qlt_le_trans with q; [lra|assumption]. }
  unfold round_half_even.
  destruct (Qcompare_spec (q - inject_Z (Qfloor q)) (1 # 2)) as [He|Hl|Hg].
  - destruct (Z.even _); [assumption|]. apply Hstep. rewrite He. reflexivity.
  - assumption.
  - apply Hstep. lra.
Qed.

Lemma whole_spec (x : pynum) :
  whole x = true -> exists q : Q, x = Fin q /\ q == inject_Z (Qfloor q).
Proof.
  destruct x as [q| | |]; simpl; try discriminate.
  intros H. apply Qeq_bool_iff in H. now exists q.
Qed.

End PyNumFacts.

(** ** [CoefficientConfig]: clamping *)

Section Clamp.

Local Open Scope Q_scope.

(** C4. For a coefficient with [min_value <= max_value] and
    [is_integer = False], [clamp(value)] is
    [max(min_value, min(max_value, value))] and lies within
    [[min_value, max_value]], whatever the input: far outside the bounds,
    infinite or NaN. *)
Theorem clamp_real_within_bounds (self : CoefficientConfig) (value : pynum) :
  num_le (min_value self) (max_value self) = true ->
  is_integer self = false ->
  clamp self value = Ok (py_max (min_value self) (py_min (max_value self) value))
  /\ exists r : pynum,
      clamp self value = Ok r
      /\ num_le (min_value self) r = true
      /\ num_le r (max_value self) = true.
Proof.
  intros Hb Hint. unfold clamp. rewrite Hint. split; [reflexivity|].
  eexists; split; [reflexivity|]. now apply py_max_min_between.
Qed.

Lemma clamp_real_within_bounds_witness :
  clamp drag (of_int 1000000) = Ok lit_0_01
  /\ clamp drag NegInf = Ok lit_0_001
  /\ exists r : pynum,
      clamp drag NaN = Ok r
      /\ num_le (min_value drag) r = true
      /\ num_le r (max_value drag) = true.
Proof.
  split; [|split].
  - apply (clamp_real_within_bounds drag (of_int 1000000)); reflexivity.
  - apply (clamp_real_within_bounds drag NegInf); reflexivity.
  - apply (clamp_real_within_bounds drag NaN); reflexivity.
Defined.

(** C1, as stated, fails: with the bounds 0.5 and 1.5 the input 10 is
    clamped to 1.5 and then rounded to 2, which is above [max_value]. *)
Lemma clamp_integer_leaves_bounds :
  num_le (min_value half_bounded) (max_value half_bounded) = true
  /\ is_integer half_bounded = true
  /\ clamp half_bounded (of_int 10) = Ok (of_int 2)
  /\ ~ (exists z : Z,
          clamp half_bounded (of_int 10) = Ok (of_int z)
          /\ num_le (min_value half_bounded) (of_int z) = true
          /\ num_le (of_int z) (max_value half_bounded) = true).
Proof.
  repeat split.
  intros (z & Hz & _ & Hmax).
  change (clamp half_bounded (of_int 10)) with (Ok (of_int 2)) in Hz.
  injection Hz as <-. vm_compute in Hmax. discriminate Hmax.
Qed.

(** C1, amended. For a coefficient with [min_value <= max_value],
    [is_integer = True] and both bounds whole numbers, [clamp(value)]
    returns, for every input, a whole number within
    [[min_value, max_value]]. *)
Theorem clamp_integer_within_whole_bounds (self : CoefficientConfig) (value : pynum) :
  num_le (min_value self) (max_value self) = true ->
  is_integer self = true ->
  whole (min_value self) = true ->
  whole (max_value self) = true ->
  exists z : Z,
    clamp self value = Ok (of_int z)
    /\ num_le (min_value self) (of_int z) = true
    /\ num_le (of_int z) (max_value self) = true.
Proof.
  intros Hb Hint Hlo Hhi. unfold clamp. rewrite Hint.
  destruct (py_max_min_between _ _ value Hb) as [Hl Hu].
  destruct (whole_spec _ Hlo) as (a & Ea & Ha).
  destruct (whole_spec _ Hhi) as (b & Eb & Hb').
  rewrite Ea, Eb in *.
  destruct (py_max (Fin a) (py_min (Fin b) value)) as [q| | |] eqn:E;
    try discriminate.
  assert (Hq : a <= q /\ q <= b) by (split; num_crush).
  destruct (round_half_even_between q (Qfloor a) (Qfloor b)) as [Hz1 Hz2].
  { rewrite <- Ha. tauto. }
  { rewrite <- Hb'. tauto. }
  exists (round_half_even q). split; [reflexivity|].
  rewrite Zle_Qle in Hz1, Hz2. rewrite <- Ha in Hz1. rewrite <- Hb' in Hz2.
  unfold of_int. split; num_crush.
Qed.

Lemma clamp_integer_within_whole_bounds_witness :
  exists z : Z,
    clamp rpm (Fin (123456789 # 1000)) = Ok (of_int z)
    /\ num_le (min_value rpm) (of_int z) = true
    /\ num_le (of_int z) (max_value rpm) = true.
Proof.
  apply (clamp_integer_within_whole_bounds rpm (Fin (123456789 # 1000)));
    reflexivity.
Defined.

End Clamp.

(** ** [CoefficientConfig]: policy resolution *)

Section Policy.

(** C3. With [force_global=True], [get_effective_autotune_settings]
    returns the global pair, whatever the per-coefficient fields
    [autotune_override], [autotune_enabled] and [autotune_shot_threshold]
    hold. *)
Theorem force_global_ignores_override (self : CoefficientConfig)
    (global_enabled : bool) (global_threshold : Z) :
  get_effective_autotune_settings self global_enabled global_threshold true
  = (global_enabled, global_threshold).
Proof. reflexivity. Qed.

(** C6. Autotune and auto-advance resolution are one function up to the
    names of the fields: each is the rule
    [force_global ? global : (override ? local : global)] on its own
    fields, and the autotune resolution of a coefficient whose fields are
    renamed is the auto-advance resolution of the original. *)
Theorem policy_resolutions_agree (self : CoefficientConfig)
    (global_flag : bool) (global_threshold : Z) (force_global : bool) :
  get_effective_autotune_settings self global_flag global_threshold force_global
  = resolve_policy force_global (autotune_override self)
      (autotune_enabled self, autotune_shot_threshold self)
      (global_flag, global_threshold)
  /\ get_effective_auto_advance_settings self global_flag global_threshold force_global
     = resolve_policy force_global (auto_advance_override self)
         (auto_advance_on_success self, auto_advance_shot_threshold self)
         (global_flag, global_threshold)
  /\ get_effective_auto_advance_settings self global_flag global_threshold force_global
     = get_effective_autotune_settings (auto_advance_as_autotune self)
         global_flag global_threshold force_global.
Proof.
  unfold get_effective_autotune_settings, get_effective_auto_advance_settings,
    resolve_policy.
  destruct force_global; simpl; auto.
Qed.

Example force_global_on_override :
  get_effective_autotune_settings overriding false 10 true = (false, 10%Z)
  /\ get_effective_autotune_settings overriding false 10 false = (true, 25%Z)
  /\ get_effective_auto_advance_settings overriding false 10 true = (false, 10%Z)
  /\ get_effective_auto_advance_settings overriding false 10 false = (true, 7%Z).
Proof. repeat split. Qed.

End Policy.

(** ** [TunerConfig]: campaign sequence and validation pass *)

Section Validation.

Lemma in_warn_if (cond : bool) (msg : string) :
  cond = true -> In msg (warn_if cond msg).
Proof. intros ->. now left. Qed.

Lemma length_warn_if (cond : bool) (msg : string) :
  length (warn_if cond msg) = count_if cond.
Proof. now destruct cond. Qed.

Lemma warn_if_false (cond : bool) (msg : string) :
  cond = false -> warn_if cond msg = [].
Proof. now intros ->. Qed.

Lemma length_flat_map_warn_if {A : Type} (p : A -> bool) (msg : A -> string)
    (l : list A) :
  length (flat_map (fun x => warn_if (p x) (msg x)) l) = length (List.filter p l).
Proof.
  induction l as [|x l IH]; simpl; [reflexivity|].
  rewrite length_app, IH. now destruct (p x).
Qed.

Lemma length_flat_map {A B : Type} (f : A -> list B) (l : list A) :
  length (flat_map f l) = list_sum (map (fun x => length (f x)) l).
Proof.
  induction l as [|x l IH]; simpl; [reflexivity|].
  now rewrite length_app, IH.
Qed.

Lemma flat_map_nil {A B : Type} (f : A -> list B) (l : list A) :
  (forall x, In x l -> f x = []) -> flat_map f l = [].
Proof.
  induction l as [|x l IH]; simpl; intros H; [reflexivity|].
  rewrite (H x) by now left. apply IH. intros y Hy. apply H. now right.
Qed.

Lemma in_enabled_coeffs (self : TunerConfig) (name : string) :
  In name (enabled_coeffs self) <->
  exists c, In (name, c) (COEFFICIENTS self) /\ enabled c = true.
Proof.
  unfold enabled_coeffs. rewrite <- list_elem_of_In, list_elem_of_omap. split.
  - intros ([n c] & Hin & Hc). destruct (enabled c) eqn:E; [|discriminate].
    injection Hc as ->. exists c. now rewrite <- list_elem_of_In.
  - intros (c & Hin & Hc). exists (name, c). rewrite list_elem_of_In.
    split; [assumption|]. now rewrite Hc.
Qed.

Lemma length_coefficient_warnings (name : string) (c : CoefficientConfig) :
  length (coefficient_warnings name c) = coefficient_violations c.
Proof.
  unfold coefficient_warnings, coefficient_violations.
  rewrite !length_app, !length_warn_if. lia.
Qed.

Lemma in_validate_order (self : TunerConfig) (w : string) :
  In w (order_warnings self) -> In w (validate_config self).
Proof. unfold validate_config. rewrite in_app_iff. tauto. Qed.

Lemma in_validate_coefficient (self : TunerConfig) (name : string)
    (c : CoefficientConfig) (w : string) :
  In (name, c) (COEFFICIENTS self) ->
  In w (coefficient_warnings name c) -> In w (validate_config self).
Proof.
  intros Hin Hw. unfold validate_config. rewrite !in_app_iff. right; left.
  apply in_flat_map. now exists (name, c).
Qed.

Lemma length_validate_config (self : TunerConfig) :
  length (validate_config self) = violation_count self.
Proof.
  unfold validate_config, violation_count, order_warnings, order_violations,
    physical_limit_warnings, system_parameter_warnings, parameter_violations.
  rewrite !length_app, !length_flat_map_warn_if, !length_warn_if.
  rewrite length_flat_map.
  assert (E : map (fun x : string * CoefficientConfig =>
                     length (let '(name, coeff) := x in coefficient_warnings name coeff))
                  (COEFFICIENTS self)
              = map (fun entry => coefficient_violations (snd entry))
                    (COEFFICIENTS self)).
  { apply map_ext. intros [n c]. apply length_coefficient_warnings. }
  rewrite E. lia.
Qed.

Lemma validate_config_nil (self : TunerConfig) :
  order_ok self ->
  (forall name c, In (name, c) (COEFFICIENTS self) -> coefficient_ok c) ->
  parameters_ok self ->
  validate_config self = [].
Proof.
  intros [Hen Hord] Hco (P1 & P2 & P3 & P4 & P5 & P6 & P7 & P8).
  unfold validate_config, order_warnings, physical_limit_warnings,
    system_parameter_warnings.
  rewrite (flat_map_nil _ (enabled_coeffs self)).
  2:{ intros name Hin. apply in_enabled_coeffs in Hin as (c & Hin & Hc).
      apply warn_if_false. now rewrite (Hen name c Hin Hc). }
  rewrite (flat_map_nil _ (TUNING_ORDER self)).
  2:{ intros name Hin. apply warn_if_false. now rewrite (Hord name Hin). }
  rewrite (flat_map_nil _ (COEFFICIENTS self)).
  2:{ intros [name c] Hin.
      destruct (Hco name c Hin) as (C1 & C2 & C3 & C4 & C5 & C6).
      unfold coefficient_warnings. now rewrite C1, C2, C3, C4, C5, C6. }
  rewrite P1, P2, P3, P6, P7, P8.
  apply Z.ltb_ge in P4, P5. now rewrite P4, P5.
Qed.

(** C5. [validate_config] is a total function of the configuration (no
    comparison in it can raise); each violated invariant puts its warning
    in the returned list: an enabled coefficient missing from
    [TUNING_ORDER], a [TUNING_ORDER] name without a coefficient,
    [min_value >= max_value], [default_value] outside
    [[min_value, max_value]], [initial_step_size <= 0], [step_decay_rate]
    outside (0, 1]; the list has one warning per violation; and it is
    empty when the order, every coefficient and the physical-limit and
    system parameters are valid. *)
Theorem validate_config_reports (self : TunerConfig) :
  (forall name c, In (name, c) (COEFFICIENTS self) ->
     (enabled c = true -> list_mem name (TUNING_ORDER self) = false ->
      In ("Enabled coefficient '" +:+ name +:+ "' not in TUNING_ORDER")
         (validate_config self))
     /\ (num_ge (min_value c) (max_value c) = true ->
         In (name +:+ ": min_value must be < max_value") (validate_config self))
     /\ (num_lt (default_value c) (min_value c) = true
         \/ num_gt (default_value c) (max_value c) = true ->
         In (name +:+ ": default_value outside valid range") (validate_config self))
     /\ (num_le (initial_step_size c) (of_int 0) = true ->
         In (name +:+ ": initial_step_size must be positive") (validate_config self))
     /\ (num_lt (of_int 0) (step_decay_rate c)
         && num_le (step_decay_rate c) (of_int 1) = false ->
         In (name +:+ ": step_decay_rate must be in (0, 1]") (validate_config self)))
  /\ (forall name, In name (TUNING_ORDER self) ->
        dict_mem (COEFFICIENTS self) name = false ->
        In ("Coefficient '" +:+ name +:+ "' in TUNING_ORDER but not defined")
           (validate_config self))
  /\ length (validate_config self) = violation_count self
  /\ (order_ok self ->
      (forall name c, In (name, c) (COEFFICIENTS self) -> coefficient_ok c) ->
      parameters_ok self ->
      validate_config self = []).
Proof.
  split; [|split; [|split]].
  - intros name c Hin. repeat split.
    + intros Hen Hmem. apply in_validate_order. unfold order_warnings.
      rewrite in_app_iff. left. apply in_flat_map. exists name. split.
      * apply in_enabled_coeffs. now exists c.
      * apply in_warn_if. now rewrite Hmem.
    + intros H. apply (in_validate_coefficient self name c _ Hin).
      unfold coefficient_warnings. rewrite !in_app_iff.
      left. now apply in_warn_if.
    + intros H. apply (in_validate_coefficient self name c _ Hin).
      unfold coefficient_warnings. rewrite !in_app_iff.
      right; left. apply in_warn_if. apply orb_true_iff. exact H.
    + intros H. apply (in_validate_coefficient self name c _ Hin).
      unfold coefficient_warnings. rewrite !in_app_iff.
      right; right; left. now apply in_warn_if.
    + intros H. apply (in_validate_coefficient self name c _ Hin).
      unfold coefficient_warnings. rewrite !in_app_iff.
      right; right; right. apply in_warn_if. now rewrite H.
  - intros name Hin Hmem. apply in_validate_order. unfold order_warnings.
    rewrite in_app_iff. right. apply in_flat_map. exists name.
    split; [assumption|]. apply in_warn_if. now rewrite Hmem.
  - apply length_validate_config.
  - apply validate_config_nil.
Qed.

Lemma validate_config_reports_witness :
  In "Enabled coefficient 'kReversed' not in TUNING_ORDER"
     (validate_config unordered_config)
  /\ In "kReversed: min_value must be < max_value" (validate_config unordered_config)
  /\ In "Coefficient 'kGhost' in TUNING_ORDER but not defined"
        (validate_config unordered_config)
  /\ length (validate_config unordered_config) = 5
  /\ validate_config sound_config = [].
Proof.
  destruct (validate_config_reports unordered_config) as (Hc & Ho & Hl & _).
  destruct (validate_config_reports sound_config) as (_ & _ & _ & Hnil).
  destruct (Hc "kReversed" reversed) as (H1 & H2 & _).
  { simpl. right. left. reflexivity. }
  split; [apply H1; reflexivity|].
  split; [apply H2; reflexivity|].
  split; [apply (Ho "kGhost"); [simpl; tauto | reflexivity]|].
  split; [exact Hl|].
  apply Hnil.
  - split.
    + intros name c [E|[E|[]]] _; injection E as <- <-; reflexivity.
    + intros name [<-|[<-|[]]]; reflexivity.
  - intros name c [E|[E|[]]]; injection E as <- <-;
      repeat split; reflexivity.
  - repeat split; vm_compute; congruence.
Defined.

Lemma dict_get_In {V : Type} (d : list (string * V)) (key : string) (v : V) :
  dict_get d key = Some v -> In (key, v) d.
Proof.
  induction d as [|[k w] d IH]; simpl; [discriminate|].
  destruct (String.eqb k key) eqn:E.
  - apply String.eqb_eq in E as ->. intros [= ->]. now left.
  - intros H. right. now apply IH.
Qed.

(** C2, as stated, fails: an enabled coefficient with [min_value = 5],
    [max_value = 1] and [initial_step_size = -1] that is named in
    [TUNING_ORDER] is part of the campaign sequence. *)
Lemma invalid_coefficient_stays_in_campaign :
  enabled reversed = true
  /\ num_ge (min_value reversed) (max_value reversed) = true
  /\ num_le (initial_step_size reversed) (of_int 0) = true
  /\ get_enabled_coefficients_in_order reversed_config = [reversed]
  /\ reversed ∈ get_enabled_coefficients_in_order reversed_config.
Proof.
  repeat split. apply list_elem_of_In. now left.
Qed.

(** C2, amended. [get_enabled_coefficients_in_order] returns exactly the
    coefficients that a name of [TUNING_ORDER] resolves to in
    [COEFFICIENTS] and that are enabled, whatever their bounds and step
    size. An enabled coefficient with [min_value >= max_value] or
    [initial_step_size <= 0] therefore stays in the campaign sequence;
    [validate_config] reports it with a warning. *)
Theorem campaign_sequence_ignores_bounds (self : TunerConfig) (c : CoefficientConfig) :
  (c ∈ get_enabled_coefficients_in_order self <->
   exists name, name ∈ TUNING_ORDER self
                /\ dict_get (COEFFICIENTS self) name = Some c
                /\ enabled c = true)
  /\ (forall name,
        name ∈ TUNING_ORDER self ->
        dict_get (COEFFICIENTS self) name = Some c ->
        enabled c = true ->
        c ∈ get_enabled_coefficients_in_order self
        /\ (num_ge (min_value c) (max_value c) = true ->
            In (name +:+ ": min_value must be < max_value") (validate_config self))
        /\ (num_le (initial_step_size c) (of_int 0) = true ->
            In (name +:+ ": initial_step_size must be positive")
               (validate_config self))).
Proof.
  assert (Hiff : c ∈ get_enabled_coefficients_in_order self <->
                 exists name, name ∈ TUNING_ORDER self
                              /\ dict_get (COEFFICIENTS self) name = Some c
                              /\ enabled c = true).
  { unfold get_enabled_coefficients_in_order. rewrite list_elem_of_omap.
    split; intros (name & Hin & H); exists name; split; try assumption.
    - destruct (dict_get (COEFFICIENTS self) name) as [c'|]; [|discriminate].
      destruct (enabled c') eqn:E; [|discriminate].
      injection H as ->. auto.
    - destruct H as [-> ->]. reflexivity. }
  split; [exact Hiff|].
  intros name Hin Hget Hen. split; [apply Hiff; eauto|].
  apply dict_get_In in Hget. split; intros H;
    apply (in_validate_coefficient self name c _ Hget);
    unfold coefficient_warnings; rewrite !in_app_iff.
  - left. now apply in_warn_if.
  - right; right; left. now apply in_warn_if.
Qed.

Lemma campaign_sequence_ignores_bounds_witness :
  reversed ∈ get_enabled_coefficients_in_order reversed_config
  /\ In "kReversed: min_value must be < max_value" (validate_config reversed_config)
  /\ In "kReversed: initial_step_size must be positive"
        (validate_config reversed_config).
Proof.
  destruct (campaign_sequence_ignores_bounds reversed_config reversed) as [_ H].
  destruct (H "kReversed") as (H1 & H2 & H3).
  - apply list_elem_of_In. now left.
  - reflexivity.
  - reflexivity.
  - split; [exact H1|]. split; [apply H2|apply H3]; reflexivity.
Defined.

End Validation.

(** ** Robot address: [_load_toggles] against the daemon *)

Section Address.

Lemma append_assoc (a b c : string) : (a +:+ b) +:+ c = a +:+ (b +:+ c).
Proof.
  induction a as [|ch a IH]; [reflexivity|].
  change (String ch ((a +:+ b) +:+ c) = String ch (a +:+ b +:+ c)).
  now f_equal.
Qed.

(** The digits printed so far are a suffix of the result. *)
Lemma pretty_N_go_app (x : N) (s : string) :
  pretty_N_go x s = pretty_N_go x "" +:+ s.
Proof.
  revert s. induction (N.lt_wf_0 x) as [x _ IH]. intros s.
  destruct (decide (0 < x)%N) as [Hx|Hx].
  - rewrite !(pretty_N_go_step x) by assumption.
    assert (Hlt : (x `div` 10 < x)%N) by (apply N.div_lt; lia).
    rewrite (IH _ Hlt (String _ s)), (IH _ Hlt (String _ "")).
    rewrite append_assoc. reflexivity.
  - assert (x = 0%N) as -> by lia. reflexivity.
Qed.

Lemma pretty_N_go_two (x : N) :
  (10 <= x < 100)%N ->
  pretty_N_go x "" =
  String (pretty_N_char (x `div` 10)) (String (pretty_N_char (x `mod` 10)) "").
Proof.
  intros H.
  rewrite pretty_N_go_step by lia.
  assert (0 < x `div` 10 < 10)%N.
  { split; [apply N.div_str_pos; lia | apply N.Div0.div_lt_upper_bound; lia]. }
  rewrite pretty_N_go_step by lia.
  rewrite (N.div_small (x `div` 10) 10) by lia.
  rewrite (N.mod_small (x `div` 10) 10) by lia.
  reflexivity.
Qed.

(** A number of four digits or more prints as its hundreds followed by
    its last two digits, when these do not start with a zero. *)
Lemma pretty_N_go_split (x : N) :
  (1000 <= x)%N -> (10 <= x `mod` 100)%N ->
  pretty_N_go x "" = pretty_N_go (x `div` 100) "" +:+ pretty_N_go (x `mod` 100) "".
Proof.
  intros H1 H2.
  assert (Hm : (x `mod` 100 < 100)%N) by (apply N.mod_lt; lia).
  rewrite (pretty_N_go_two (x `mod` 100)) by lia.
  rewrite (pretty_N_go_step x) by lia.
  assert (0 < x `div` 10)%N by (apply N.div_str_pos; lia).
  rewrite (pretty_N_go_step (x `div` 10)) by lia.
  rewrite pretty_N_go_app.
  replace ((x `div` 10) `div` 10)%N with (x `div` 100)%N
    by (rewrite N.Div0.div_div; reflexivity).
  replace ((x `mod` 100) `div` 10)%N with ((x `div` 10) `mod` 10)%N.
  2:{ change 100%N with (10 * 10)%N. rewrite N.Div0.mod_mul_r.
      rewrite N.mul_comm, N.div_add by lia.
      rewrite (N.div_small (x `mod` 10)) by (apply N.mod_lt; lia). lia. }
  replace ((x `mod` 100) `mod` 10)%N with (x `mod` 10)%N.
  2:{ change 100%N with (10 * 10)%N. rewrite N.Div0.mod_mul_r.
      rewrite N.mul_comm, N.Div0.mod_add. now rewrite N.Div0.mod_mod. }
  reflexivity.
Qed.

Lemma py_str_pos (z : Z) :
  (0 < z)%Z -> py_str z = pretty_N_go (Z.to_N z) "".
Proof.
  intros H. destruct z as [|p|p]; try lia. reflexivity.
Qed.

Lemma pretty_N_char_not_sign (x : N) :
  (Ascii.eqb (pretty_N_char x) "+"%char
   || Ascii.eqb (pretty_N_char x) "-"%char)%bool = false.
Proof. unfold pretty_N_char. now repeat case_match. Qed.

(** Where both two-digit groups of a four-digit team number are at least
    10, the two computations give the same address. *)
Lemma server_ip_agrees_on_two_digit_groups (t : Z) :
  (1000 <= t <= 9999)%Z -> (10 <= t `mod` 100)%Z ->
  server_ip t = Some (NT_SERVER_IP t).
Proof.
  intros Ht Hm. unfold server_ip, NT_SERVER_IP.
  assert (Hpos : (t >? 0)%Z = true) by lia. rewrite Hpos.
  assert (Hd : (10 <= t `div` 100 < 100)%Z).
  { split; [apply Z.div_le_lower_bound; lia | apply Z.div_lt_upper_bound; lia]. }
  assert (Hm' : (t `mod` 100 < 100)%Z) by (apply Z.mod_pos_bound; lia).
  rewrite !py_str_pos by lia.
  rewrite (pretty_N_go_split (Z.to_N t)).
  2:{ lia. }
  2:{ change 100%N with (Z.to_N 100). rewrite <- Z2N.inj_mod by lia. lia. }
  change 100%N with (Z.to_N 100).
  rewrite <- Z2N.inj_div, <- Z2N.inj_mod by lia.
  rewrite (pretty_N_go_two (Z.to_N (t `div` 100))) by lia.
  rewrite (pretty_N_go_two (Z.to_N (t `mod` 100))) by lia.
  generalize (pretty_N_char_not_sign (Z.to_N (t `div` 100) `div` 10)).
  generalize (pretty_N_char (Z.to_N (t `div` 100) `div` 10)),
             (pretty_N_char (Z.to_N (t `div` 100) `mod` 10)),
             (pretty_N_char (Z.to_N (t `mod` 100) `div` 10)),
             (pretty_N_char (Z.to_N (t `mod` 100) `mod` 10)).
  intros a b c d Hsign.
  change (String a (String b "") +:+ String c (String d ""))
    with (String a (String b (String c (String d "")))).
  unfold zfill. rewrite Hsign. reflexivity.
Qed.

(** C8. For team 254 the address of [_load_toggles] is 10.2.54.2 while
    the daemon, which pads the number to four digits and cuts it in two,
    computes 10.02.54.2: the two strings differ. *)
Theorem server_ip_differs_for_team_254 :
  (1 <= 254 <= 9999)%Z
  /\ NT_SERVER_IP 254 = "10.2.54.2"
  /\ server_ip 254 = Some "10.02.54.2"
  /\ server_ip 254 <> Some (NT_SERVER_IP 254).
Proof.
  split; [lia|]. split; [reflexivity|]. split; [reflexivity|].
  vm_compute. discriminate.
Qed.

End Address.

(** ** Dashboard: clamping of coefficient values *)

Section DashboardClamp.

Lemma bounds_entry_lookup (step lo hi : pynum) :
  bounds_entry step lo hi !! "min" = Some lo
  /\ bounds_entry step lo hi !! "max" = Some hi.
Proof. split; reflexivity. Qed.

(** Every entry of [COEFFICIENT_CONFIG] has a ["min"] and a ["max"], in
    this order. *)
Lemma COEFFICIENT_CONFIG_bounds :
  map_Forall (fun _ (config : gmap string pynum) =>
                exists lo hi, config !! "min" = Some lo
                              /\ config !! "max" = Some hi
                              /\ num_le lo hi = true)
             COEFFICIENT_CONFIG.
Proof.
  unfold COEFFICIENT_CONFIG.
  repeat apply map_Forall_insert_2; [..|apply map_Forall_empty];
    (eexists _, _; split; [apply bounds_entry_lookup|];
     split; [apply bounds_entry_lookup|]; reflexivity).
Qed.

(** C10. For a name defined in [COEFFICIENT_CONFIG],
    [clamp_coefficient_value] returns the value clamped to the configured
    [[min, max]] of that coefficient; for any other name it raises
    nothing and returns the value clamped to the fallback bounds
    [[0, 100]]. (A NaN is sent to the lower bound.) *)
Theorem clamp_coefficient_value_clamps (value : pynum) (coeff_name : string) :
  (forall config : gmap string pynum,
      COEFFICIENT_CONFIG !! coeff_name = Some config ->
      exists lo hi r,
        config !! "min" = Some lo
        /\ config !! "max" = Some hi
        /\ clamp_coefficient_value value coeff_name = Ok r
        /\ clamped_to lo hi value r)
  /\ (COEFFICIENT_CONFIG !! coeff_name = None ->
      exists r,
        clamp_coefficient_value value coeff_name = Ok r
        /\ clamped_to (of_int 0) (of_int 100) value r).
Proof.
  split.
  - intros config Hcfg.
    destruct (COEFFICIENT_CONFIG_bounds _ _ Hcfg) as (lo & hi & Hlo & Hhi & Hle).
    exists lo, hi, (py_max lo (py_min value hi)).
    repeat split; try assumption; try (now apply py_max_min_clamped).
    unfold clamp_coefficient_value, getitem. rewrite Hcfg. simpl.
    rewrite Hlo. simpl. rewrite Hhi. reflexivity.
  - intros Hnone. eexists. split.
    + unfold clamp_coefficient_value. rewrite Hnone. reflexivity.
    + now apply py_max_min_clamped.
Qed.

Lemma clamp_coefficient_value_clamps_witness :
  (exists lo hi r,
      bounds_entry (of_int 1) (of_int 0) (of_int 90) !! "min" = Some lo
      /\ bounds_entry (of_int 1) (of_int 0) (of_int 90) !! "max" = Some hi
      /\ clamp_coefficient_value (of_int 500) "kShooterAngle" = Ok r
      /\ clamped_to lo hi (of_int 500) r)
  /\ (exists r,
         clamp_coefficient_value (of_int (-3)) "kFlywheel" = Ok r
         /\ clamped_to (of_int 0) (of_int 100) (of_int (-3)) r).
Proof.
  split.
  - apply (clamp_coefficient_value_clamps (of_int 500) "kShooterAngle").
    reflexivity.
  - apply (clamp_coefficient_value_clamps (of_int (-3)) "kFlywheel").
    reflexivity.
Defined.

End DashboardClamp.

(** ** Robot link: staleness of shot observations *)

Section ShotPolling.

Lemma num_gt_irrefl (x : pynum) : num_gt x x = false.
Proof.
  destruct x; unfold num_gt; simpl; try reflexivity.
  now rewrite Qcompare_refl.
Qed.

Lemma read_shot_data_some (st st' : LinkState) (tbl : RemoteTable)
    (obs : ShotObservation) :
  read_shot_data st tbl = (Some obs, st') ->
  shot_timestamp_key tbl = Some (timestamp obs)
  /\ num_gt (timestamp obs) (last_shot_timestamp st) = true
  /\ last_shot_timestamp st' = timestamp obs.
Proof.
  unfold read_shot_data.
  destruct (shot_timestamp_key tbl) as [ts|]; [|discriminate].
  destruct (num_gt ts (last_shot_timestamp st)) eqn:E; [|discriminate].
  intros [= <- <-]. auto.
Qed.

Lemma read_shot_data_none (st st' : LinkState) (tbl : RemoteTable) :
  read_shot_data st tbl = (None, st') -> st' = st.
Proof.
  unfold read_shot_data.
  destruct (shot_timestamp_key tbl) as [ts|]; [|now intros [= <-]].
  destruct (num_gt ts (last_shot_timestamp st)); [discriminate|now intros [= <-]].
Qed.

Lemma poll_all_increasing (tables : list RemoteTable) (st : LinkState) :
  strictly_increasing_from (last_shot_timestamp st)
    (returned_timestamps (poll_all st tables)) = true.
Proof.
  revert st. induction tables as [|tbl tables IH]; intros st; [reflexivity|].
  simpl. destruct (read_shot_data st tbl) as [[obs|] st'] eqn:E.
  - apply read_shot_data_some in E as (_ & Hgt & Hlast).
    unfold returned_timestamps. simpl. rewrite Hgt. simpl.
    rewrite <- Hlast. apply IH.
  - apply read_shot_data_none in E as ->. apply IH.
Qed.

(** C7. [read_shot_data] returns an observation only when the shot
    timestamp key is strictly greater than the timestamp of the
    observation returned before; over any sequence of polls the returned
    timestamps are strictly increasing; and a poll that follows another
    one without a new timestamp write returns [None]. *)
Theorem read_shot_data_monotonic (st : LinkState) (tables : list RemoteTable) :
  (forall tbl obs st',
      read_shot_data st tbl = (Some obs, st') ->
      shot_timestamp_key tbl = Some (timestamp obs)
      /\ num_gt (timestamp obs) (last_shot_timestamp st) = true
      /\ last_shot_timestamp st' = timestamp obs)
  /\ strictly_increasing_from (last_shot_timestamp st)
       (returned_timestamps (poll_all st tables)) = true
  /\ (forall tbl tbl',
        shot_timestamp_key tbl' = shot_timestamp_key tbl ->
        fst (read_shot_data (snd (read_shot_data st tbl)) tbl') = None).
Proof.
  split; [intros tbl obs st'; apply read_shot_data_some|].
  split; [apply poll_all_increasing|].
  intros tbl tbl' Hsame. unfold read_shot_data at 2.
  destruct (shot_timestamp_key tbl) as [ts|] eqn:Ets.
  - destruct (num_gt ts (last_shot_timestamp st)) eqn:Hgt; simpl;
      unfold read_shot_data; rewrite Hsame; simpl.
    + now rewrite num_gt_irrefl.
    + now rewrite Hgt.
  - simpl. unfold read_shot_data. now rewrite Hsame.
Qed.

Lemma read_shot_data_monotonic_witness :
  num_gt (of_int 5) (last_shot_timestamp fresh_link) = true
  /\ returned_timestamps
       (poll_all fresh_link [shot_at 5 true; shot_at 5 true; shot_at 3 false; shot_at 7 true])
     = [of_int 5; of_int 7]
  /\ strictly_increasing_from (last_shot_timestamp fresh_link) [of_int 5; of_int 7] = true
  /\ fst (read_shot_data (snd (read_shot_data fresh_link (shot_at 5 true)))
                         (shot_at 5 false)) = None.
Proof.
  destruct (read_shot_data_monotonic fresh_link
              [shot_at 5 true; shot_at 5 true; shot_at 3 false; shot_at 7 true])
    as (Hsome & Hinc & Hnone).
  split.
  { apply (Hsome (shot_at 5 true)
                 {| hit := true; distance := of_int 5; exit_velocity := of_int 12;
                    timestamp := of_int 5 |}
                 {| last_shot_timestamp := of_int 5 |}).
    reflexivity. }
  split; [reflexivity|].
  split; [exact Hinc|].
  apply Hnone. reflexivity.
Defined.

End ShotPolling.

(** ** [CoefficientConfig.clamp]: further laws *)

Section ClampLaws.

Local Open Scope Q_scope.

(** The expression of [clamp] sends a value to the bound it lies beyond
    and leaves a value between the bounds alone. *)
Lemma py_max_min_clamped_config (lo hi v : pynum) :
  num_le lo hi = true ->
  clamped_to lo hi v (py_max lo (py_min hi v)).
Proof.
  intros H. unfold clamped_to.
  destruct lo, hi, v; repeat split; intros; num_crush.
Qed.

(** When [min_value <= max_value] fails (reversed or NaN bounds) the
    expression is constant. *)
Lemma py_max_min_degenerate (lo hi v : pynum) :
  num_le lo hi = false -> py_max lo (py_min hi v) = lo.
Proof.
  intros H. destruct lo, hi, v; num_crush.
Qed.

Lemma py_max_min_finite (a b : Q) (v : pynum) :
  exists q : Q, py_max (Fin a) (py_min (Fin b) v) = Fin q.
Proof.
  destruct v; unfold py_max, py_min, num_lt, num_gt, num_compare;
    compare_cases; simpl; compare_cases; eauto.
Qed.

Lemma py_max_min_idempotent (lo hi v : pynum) :
  py_max lo (py_min hi (py_max lo (py_min hi v))) = py_max lo (py_min hi v).
Proof.
  destruct lo, hi, v; num_crush.
Qed.

Lemma py_max_min_monotone (lo hi v w : pynum) :
  num_le lo hi = true -> num_le v w = true ->
  num_le (py_max lo (py_min hi v)) (py_max lo (py_min hi w)) = true.
Proof.
  intros H1 H2. destruct lo, hi, v, w; num_crush.
Qed.

Lemma round_half_even_int (z : Z) : round_half_even (inject_Z z) = z.
Proof.
  unfold round_half_even. rewrite Qfloor_Z.
  destruct (Qcompare_spec (inject_Z z - inject_Z z) (1 # 2)) as [H|H|H];
    try reflexivity; lra.
Qed.

Lemma round_half_even_comp (x y : Q) :
  x == y -> round_half_even x = round_half_even y.
Proof.
  intros E. unfold round_half_even. rewrite (Qfloor_comp x y E).
  assert (E2 : x - inject_Z (Qfloor y) == y - inject_Z (Qfloor y))
    by (rewrite E; reflexivity).
  now rewrite (Qcompare_comp _ _ E2 (1 # 2) (1 # 2) (Qeq_refl _)).
Qed.

Lemma round_half_even_monotone (x y : Q) :
  x <= y -> (round_half_even x <= round_half_even y)%Z.
Proof.
  intros Hxy.
  pose proof (Qfloor_resp_le x y Hxy) as Hf.
  pose proof (floor_le_round y) as Hy.
  assert (Hx : (round_half_even x <= Qfloor x + 1)%Z).
  { unfold round_half_even.
    destruct (x - inject_Z (Qfloor x) ?= 1 # 2); [destruct (Z.even _)|..]; lia. }
  destruct (Z.eq_dec (Qfloor x) (Qfloor y)) as [E|NE]; [|lia].
  unfold round_half_even. rewrite E.
  destruct (Qcompare_spec (x - inject_Z (Qfloor y)) (1 # 2)) as [H1|H1|H1];
    destruct (Qcompare_spec (y - inject_Z (Qfloor y)) (1 # 2)) as [H2|H2|H2];
    try destruct (Z.even (Qfloor y)); try lia; lra.
Qed.

(** X1. With finite bounds [clamp] never raises and never returns an
    infinity or NaN, whatever the input, the rounding flag and the order
    of the bounds. *)
Theorem clamp_finite_on_finite_bounds (self : CoefficientConfig) (value : pynum)
    (a b : Q) :
  min_value self = Fin a ->
  max_value self = Fin b ->
  exists q : Q, clamp self value = Ok (Fin q).
Proof.
  intros Ha Hb. unfold clamp. rewrite Ha, Hb.
  destruct (py_max_min_finite a b value) as [q ->].
  destruct (is_integer self); simpl; eauto.
Qed.

Lemma clamp_finite_on_finite_bounds_witness :
  (exists q : Q, clamp half_bounded NaN = Ok (Fin q))
  /\ (exists q : Q, clamp reversed PosInf = Ok (Fin q)).
Proof.
  split.
  - apply (clamp_finite_on_finite_bounds half_bounded NaN (1 # 2) (3 # 2));
      reflexivity.
  - apply (clamp_finite_on_finite_bounds reversed PosInf (inject_Z 5) (inject_Z 1));
      reflexivity.
Defined.

(** X2. When [min_value <= max_value] does not hold (reversed bounds, or a
    NaN bound) the input plays no role: [clamp] returns [min_value],
    rounded if [is_integer]. *)
Theorem clamp_degenerate_bounds (self : CoefficientConfig) (value : pynum) :
  num_le (min_value self) (max_value self) = false ->
  clamp self value
  = if is_integer self
    then z ← py_round (min_value self); Ok (of_int z)
    else Ok (min_value self).
Proof.
  intros H. unfold clamp. now rewrite py_max_min_degenerate.
Qed.

Lemma clamp_degenerate_bounds_witness :
  clamp reversed (of_int 2) = Ok (of_int 5)
  /\ clamp reversed NegInf = Ok (of_int 5).
Proof.
  split.
  - apply (clamp_degenerate_bounds reversed (of_int 2)). reflexivity.
  - apply (clamp_degenerate_bounds reversed NegInf). reflexivity.
Defined.

(** X3. A value between the bounds is returned unchanged (as a number); with
    [is_integer] this holds for the whole values between the bounds. *)
Theorem clamp_fixes_values_in_range (self : CoefficientConfig) (value : pynum) :
  num_le (min_value self) value = true ->
  num_le value (max_value self) = true ->
  (is_integer self = true -> whole value = true) ->
  exists r : pynum, clamp self value = Ok r /\ num_eq r value = true.
Proof.
  intros Hlo Hhi Hint.
  assert (Hb : num_le (min_value self) (max_value self) = true).
  { destruct (min_value self), (max_value self), value; num_crush. }
  destruct (py_max_min_clamped_config _ _ value Hb) as (_ & _ & Hin & _).
  specialize (Hin Hlo Hhi).
  unfold clamp. destruct (is_integer self).
  - destruct (whole_spec _ (Hint eq_refl)) as (q & -> & Hq).
    destruct (py_max _ _) as [q'| | |]; try discriminate.
    assert (E : q' == q) by num_crush.
    simpl. eexists. split; [reflexivity|].
    rewrite (round_half_even_comp q' (inject_Z (Qfloor q))) by (now rewrite E).
    rewrite round_half_even_int. unfold of_int. num_crush.
  - eauto.
Qed.

Lemma clamp_fixes_values_in_range_witness :
  (exists r : pynum, clamp drag lit_0_003 = Ok r /\ num_eq r lit_0_003 = true)
  /\ (exists r : pynum,
         clamp rpm (Fin (9000 # 3)) = Ok r /\ num_eq r (Fin (9000 # 3)) = true).
Proof.
  split.
  - apply (clamp_fixes_values_in_range drag lit_0_003); try reflexivity.
    discriminate.
  - apply (clamp_fixes_values_in_range rpm (Fin (9000 # 3))); reflexivity.
Defined.

(** Clamping a finite number moves it towards any number that lies
    between the bounds. *)
Lemma py_max_min_toward (lo hi : pynum) (q w : Q) :
  num_le lo (Fin q) = true ->
  num_le (Fin q) hi = true ->
  exists x : Q,
    py_max lo (py_min hi (Fin w)) = Fin x
    /\ ((q <= x /\ x <= w) \/ (w <= x /\ x <= q)).
Proof.
  intros H1 H2.
  destruct lo, hi;
    unfold py_max, py_min, num_lt, num_gt, num_le, num_compare in *;
    compare_cases; simpl in *; try discriminate;
    eexists; (split; [reflexivity | lra]).
Qed.

Lemma round_half_even_between_rounded (q x : Q) :
  (q <= x /\ x <= inject_Z (round_half_even q))
  \/ (inject_Z (round_half_even q) <= x /\ x <= q) ->
  round_half_even x = round_half_even q.
Proof.
  intros H.
  pose proof (round_half_even_int (round_half_even q)) as Hz.
  destruct H as [[H1 H2]|[H1 H2]].
  - pose proof (round_half_even_monotone q x H1).
    pose proof (round_half_even_monotone x _ H2). lia.
  - pose proof (round_half_even_monotone _ x H1).
    pose proof (round_half_even_monotone x q H2). lia.
Qed.

(** X4. [clamp] is idempotent: what it returns, it returns again when given
    it back. No assumption on the bounds or on the rounding flag. *)
Theorem clamp_idempotent (self : CoefficientConfig) (value r : pynum) :
  clamp self value = Ok r -> clamp self r = Ok r.
Proof.
  unfold clamp. destruct (is_integer self) eqn:Hint.
  - destruct (num_le (min_value self) (max_value self)) eqn:Hb.
    + destruct (py_max_min_between _ _ value Hb) as [Hl Hu].
      destruct (py_max (min_value self) (py_min (max_value self) value))
        as [q| | |]; try discriminate.
      intros [= <-].
      destruct (py_max_min_toward _ _ q (inject_Z (round_half_even q)) Hl Hu)
        as (x & Ex & Hx).
      unfold of_int. rewrite Ex. cbn [mbind result_bind py_round].
      now rewrite (round_half_even_between_rounded q x Hx).
    + rewrite !py_max_min_degenerate by assumption. auto.
  - intros [= <-]. now rewrite py_max_min_idempotent.
Qed.

Lemma clamp_idempotent_witness :
  clamp half_bounded (of_int 2) = Ok (of_int 2)
  /\ clamp drag lit_0_01 = Ok lit_0_01.
Proof.
  split.
  - apply (clamp_idempotent half_bounded (of_int 10)). reflexivity.
  - apply (clamp_idempotent drag PosInf). reflexivity.
Defined.

(** X5. [clamp] is monotone: a larger input never gives a smaller result. *)
Theorem clamp_monotone (self : CoefficientConfig) (v w r1 r2 : pynum) :
  num_le (min_value self) (max_value self) = true ->
  num_le v w = true ->
  clamp self v = Ok r1 ->
  clamp self w = Ok r2 ->
  num_le r1 r2 = true.
Proof.
  intros Hb Hvw. unfold clamp.
  pose proof (py_max_min_monotone _ _ v w Hb Hvw) as Hm.
  destruct (is_integer self).
  - destruct (py_max _ (py_min _ v)) as [x| | |]; try discriminate.
    destruct (py_max _ (py_min _ w)) as [y| | |]; try discriminate.
    intros [= <-] [= <-].
    assert (Hxy : x <= y) by num_crush.
    apply round_half_even_monotone in Hxy. rewrite Zle_Qle in Hxy.
    unfold of_int. num_crush.
  - now intros [= <-] [= <-].
Qed.

Lemma clamp_monotone_witness :
  clamp rpm (Fin (7 # 5)) = Ok (of_int 1)
  /\ clamp rpm PosInf = Ok (of_int 6000)
  /\ num_le (of_int 1) (of_int 6000) = true.
Proof.
  split; [reflexivity|]. split; [reflexivity|].
  apply (clamp_monotone rpm (Fin (7 # 5)) PosInf (of_int 1) (of_int 6000));
    reflexivity.
Defined.

End ClampLaws.

(** ** Policy resolution and validation: further laws *)

Section ConfigLaws.

(** X6. [get_effective_auto_advance] is the flag of
    [get_effective_auto_advance_settings], whatever the threshold. *)
Theorem auto_advance_flag_agrees (self : CoefficientConfig)
    (global_auto_advance : bool) (global_threshold : Z) (force_global : bool) :
  get_effective_auto_advance self global_auto_advance force_global
  = fst (get_effective_auto_advance_settings self global_auto_advance
           global_threshold force_global).
Proof.
  unfold get_effective_auto_advance, get_effective_auto_advance_settings.
  destruct force_global, (auto_advance_override self); reflexivity.
Qed.

Lemma warn_if_nil (cond : bool) (msg : string) :
  warn_if cond msg = [] -> cond = false.
Proof. now destruct cond. Qed.

Lemma flat_map_eq_nil {A B : Type} (f : A -> list B) (l : list A) :
  flat_map f l = [] -> forall x, In x l -> f x = [].
Proof.
  induction l as [|y l IH]; simpl; intros H x; [tauto|].
  apply app_eq_nil in H as [H1 H2]. intros [<-|Hin]; auto.
Qed.

Lemma validate_config_nil_inv (self : TunerConfig) :
  validate_config self = [] ->
  order_ok self
  /\ (forall name c, In (name, c) (COEFFICIENTS self) -> coefficient_ok c)
  /\ parameters_ok self.
Proof.
  unfold validate_config, order_warnings. intros H.
  apply app_eq_nil in H as [Hord H]. apply app_eq_nil in Hord as [Hen Hdef].
  apply app_eq_nil in H as [Hco H]. apply app_eq_nil in H as [Hph Hsys].
  split; [split|split].
  - intros name c Hin Hc.
    pose proof (flat_map_eq_nil _ _ Hen name) as Hw.
    apply warn_if_nil in Hw.
    + now apply negb_false_iff in Hw.
    + apply in_enabled_coeffs. eauto.
  - intros name Hin. pose proof (flat_map_eq_nil _ _ Hdef name Hin) as Hw.
    apply warn_if_nil in Hw. now apply negb_false_iff in Hw.
  - intros name c Hin. pose proof (flat_map_eq_nil _ _ Hco (name, c) Hin) as Hw.
    unfold coefficient_warnings in Hw.
    apply app_eq_nil in Hw as [W1 Hw]. apply app_eq_nil in Hw as [W2 Hw].
    apply app_eq_nil in Hw as [W3 W4].
    apply warn_if_nil in W1, W2, W3, W4.
    apply orb_false_iff in W2 as [W2 W2'].
    apply negb_false_iff, andb_true_iff in W4 as [W4 W4'].
    unfold coefficient_ok. tauto.
  - unfold physical_limit_warnings in Hph. unfold system_parameter_warnings in Hsys.
    apply app_eq_nil in Hph as [P1 Hph]. apply app_eq_nil in Hph as [P2 P3].
    apply app_eq_nil in Hsys as [S1 Hsys]. apply app_eq_nil in Hsys as [S2 Hsys].
    apply app_eq_nil in Hsys as [S3 Hsys]. apply app_eq_nil in Hsys as [S4 S5].
    apply warn_if_nil in P1, P2, P3, S1, S2, S3, S4, S5.
    apply Z.ltb_ge in S1, S2.
    unfold parameters_ok. tauto.
Qed.

Lemma dict_get_of_In {V : Type} (d : list (string * V)) (key : string) (v : V) :
  NoDup (map fst d) -> In (key, v) d -> dict_get d key = Some v.
Proof.
  induction d as [|[k w] d IH]; simpl; [tauto|].
  intros Hnd [E|Hin].
  - injection E as -> ->. now rewrite String.eqb_refl.
  - apply NoDup_cons in Hnd as [Hk Hnd].
    destruct (String.eqb k key) eqn:E; [|now apply IH].
    apply String.eqb_eq in E as ->. exfalso. apply Hk.
    apply list_elem_of_In, in_map_iff. now exists (key, v).
Qed.

Lemma list_mem_In (x : string) (l : list string) :
  list_mem x l = true <-> In x l.
Proof.
  unfold list_mem. rewrite existsb_exists. split.
  - intros (y & Hin & E). apply String.eqb_eq in E as ->. assumption.
  - intros Hin. exists x. split; [assumption|apply String.eqb_refl].
Qed.

(** Two numbers are comparable, in both directions. *)
Lemma num_compare_total (a b : pynum) :
  a <> NaN -> b <> NaN ->
  exists c, num_compare a b = Some c /\ num_compare b a = Some (CompOpp c).
Proof.
  intros Ha Hb. destruct a as [x| | |], b as [y| | |]; try congruence;
    try (eexists; split; reflexivity).
  exists (x ?= y)%Q. split; [reflexivity|]. cbn [num_compare].
  now rewrite <- Qcompare_antisym.
Qed.

(** X7. A configuration that [validate_config] passes without warning is
    well formed wherever it holds numbers. The checks are comparisons
    that NaN fails silently; on a coefficient whose bounds, default and
    step are not NaN an empty list of warnings means
    [min_value < max_value], a default within the bounds, a positive
    step and a decay rate in (0, 1]; its key is in [TUNING_ORDER] if it
    is enabled; and [clamp], when the coefficient is real-valued,
    returns its default unchanged. *)
Theorem validated_coefficient_well_formed (self : TunerConfig) (key : string)
    (c : CoefficientConfig) :
  validate_config self = [] ->
  In (key, c) (COEFFICIENTS self) ->
  min_value c <> NaN -> max_value c <> NaN ->
  default_value c <> NaN -> initial_step_size c <> NaN ->
  num_lt (min_value c) (max_value c) = true
  /\ num_le (min_value c) (default_value c) = true
  /\ num_le (default_value c) (max_value c) = true
  /\ num_gt (initial_step_size c) (of_int 0) = true
  /\ num_gt (step_decay_rate c) (of_int 0) = true
  /\ num_le (step_decay_rate c) (of_int 1) = true
  /\ (enabled c = true -> In key (TUNING_ORDER self))
  /\ (is_integer c = false ->
      exists r, clamp c (default_value c) = Ok r
                /\ num_eq r (default_value c) = true).
Proof.
  intros Hval Hin Hmin Hmax Hdef Hstep.
  destruct (validate_config_nil_inv self Hval) as ([Hen _] & Hco & _).
  destruct (Hco key c Hin) as (C1 & C2 & C3 & C4 & C5 & C6).
  assert (Hzero : of_int 0 <> NaN) by discriminate.
  assert (B1 : num_lt (min_value c) (max_value c) = true).
  { destruct (num_compare_total _ _ Hmin Hmax) as (k & E & _).
    unfold num_ge in C1. unfold num_lt. rewrite E in *. now destruct k. }
  assert (B2 : num_le (min_value c) (default_value c) = true).
  { destruct (num_compare_total _ _ Hdef Hmin) as (k & E & E').
    unfold num_lt in C2. unfold num_le. rewrite E in C2. rewrite E'.
    now destruct k. }
  assert (B3 : num_le (default_value c) (max_value c) = true).
  { destruct (num_compare_total _ _ Hdef Hmax) as (k & E & _).
    unfold num_gt in C3. unfold num_le. rewrite E in *. now destruct k. }
  assert (B4 : num_gt (initial_step_size c) (of_int 0) = true).
  { destruct (num_compare_total _ _ Hstep Hzero) as (k & E & _).
    unfold num_le in C4. unfold num_gt. rewrite E in *. now destruct k. }
  assert (B5 : num_gt (step_decay_rate c) (of_int 0) = true).
  { assert (Hdecay : step_decay_rate c <> NaN).
    { intros E. rewrite E in C5. discriminate C5. }
    destruct (num_compare_total _ _ Hzero Hdecay) as (k & E & E').
    unfold num_lt in C5. unfold num_gt. rewrite E in C5. rewrite E'.
    now destruct k. }
  repeat (split; [assumption|]). split.
  - intros Hc. apply list_mem_In. now apply (Hen key c).
  - intros Hint. unfold clamp. rewrite Hint. eexists. split; [reflexivity|].
    assert (Hle : num_le (min_value c) (max_value c) = true).
    { unfold num_lt in B1. unfold num_le.
      destruct (num_compare (min_value c) (max_value c)) as [[]|];
        try discriminate; reflexivity. }
    destruct (py_max_min_clamped_config _ _ (default_value c) Hle)
      as (_ & _ & Hfix & _).
    now apply Hfix.
Qed.

Lemma validated_coefficient_well_formed_witness :
  num_lt (min_value drag) (max_value drag) = true
  /\ num_le (min_value drag) (default_value drag) = true
  /\ num_le (default_value drag) (max_value drag) = true
  /\ num_gt (initial_step_size drag) (of_int 0) = true
  /\ num_gt (step_decay_rate drag) (of_int 0) = true
  /\ num_le (step_decay_rate drag) (of_int 1) = true
  /\ (enabled drag = true -> In "kDragCoefficient" (TUNING_ORDER sound_config))
  /\ (is_integer drag = false ->
      exists r, clamp drag (default_value drag) = Ok r
                /\ num_eq r (default_value drag) = true).
Proof.
  apply (validated_coefficient_well_formed sound_config "kDragCoefficient" drag);
    [reflexivity | simpl; tauto | discriminate..].
Defined.

(** X8. On a configuration that [validate_config] passes without warning and
    whose [COEFFICIENTS] keys are distinct, the campaign sequence holds
    exactly the enabled coefficients: none of them is left untuned. *)
Theorem validated_campaign_covers_enabled (self : TunerConfig)
    (c : CoefficientConfig) :
  validate_config self = [] ->
  NoDup (map fst (COEFFICIENTS self)) ->
  (c ∈ get_enabled_coefficients_in_order self <->
   exists name, In (name, c) (COEFFICIENTS self) /\ enabled c = true).
Proof.
  intros Hval Hnd.
  apply validate_config_nil_inv in Hval as ([Hen _] & _ & _).
  unfold get_enabled_coefficients_in_order. rewrite list_elem_of_omap. split.
  - intros (name & Hin & H).
    destruct (dict_get (COEFFICIENTS self) name) as [c'|] eqn:Hget; [|discriminate].
    destruct (enabled c') eqn:E; [|discriminate].
    injection H as ->. exists name. split; [now apply dict_get_In|assumption].
  - intros (name & Hin & Hc). exists name. split.
    + apply list_elem_of_In, list_mem_In. now apply (Hen name c).
    + rewrite (dict_get_of_In _ _ _ Hnd Hin). now rewrite Hc.
Qed.

Lemma validated_campaign_covers_enabled_witness :
  rpm ∈ get_enabled_coefficients_in_order sound_config.
Proof.
  apply (validated_campaign_covers_enabled sound_config rpm).
  - reflexivity.
  - apply (bool_decide_unpack (NoDup (map fst (COEFFICIENTS sound_config)))).
    vm_compute. reflexivity.
  - exists "kShooterRPM". split; [simpl; tauto | reflexivity].
Defined.

(** X9. The campaign sequence follows [TUNING_ORDER]: with coefficients that
    carry their key as name, the names of the sequence are the names of
    the order that are defined and enabled, in the same order and as
    often as the order lists them. *)
Theorem campaign_sequence_follows_order (self : TunerConfig) :
  (forall key c, In (key, c) (COEFFICIENTS self) -> name c = key) ->
  map name (get_enabled_coefficients_in_order self)
  = List.filter (starts_campaign self) (TUNING_ORDER self).
Proof.
  intros Hkey. unfold get_enabled_coefficients_in_order.
  induction (TUNING_ORDER self) as [|n order IH]; [reflexivity|].
  cbn [omap list_omap List.filter]. unfold starts_campaign at 1.
  destruct (dict_get (COEFFICIENTS self) n) as [c|] eqn:Hget; [|exact IH].
  destruct (enabled c); [|exact IH].
  cbn [map]. rewrite (Hkey n c) by now apply dict_get_In.
  f_equal. exact IH.
Qed.

Lemma campaign_sequence_follows_order_witness :
  map name (get_enabled_coefficients_in_order sound_config)
  = ["kDragCoefficient"; "kShooterRPM"].
Proof.
  apply (campaign_sequence_follows_order sound_config).
  intros key c [E|[E|[]]]; injection E as <- <-; reflexivity.
Defined.

(** X10. The bounds checks of [validate_config] compare with [>=], [<] and
    [>], which are all false on NaN: a coefficient whose [min_value] is
    NaN raises no warning (given a default not above [max_value], a
    positive step and a decay rate in (0, 1]). On such a coefficient
    [clamp] returns NaN for every input, and raises [ValueError] for
    every input when [is_integer] is set. *)
Theorem nan_min_value_passes_validation (key : string) (c : CoefficientConfig) :
  min_value c = NaN ->
  num_gt (default_value c) (max_value c) = false ->
  num_le (initial_step_size c) (of_int 0) = false ->
  num_lt (of_int 0) (step_decay_rate c) = true ->
  num_le (step_decay_rate c) (of_int 1) = true ->
  coefficient_warnings key c = []
  /\ (forall value, clamp c value
                    = if is_integer c then Raise ValueError else Ok NaN).
Proof.
  intros Hmin Hd Hs Hr1 Hr2. split.
  - unfold coefficient_warnings. rewrite Hmin, Hd, Hs, Hr1, Hr2.
    replace (num_lt (default_value c) NaN) with false
      by (now destruct (default_value c)).
    reflexivity.
  - intros value. unfold clamp. rewrite Hmin.
    replace (py_max NaN (py_min (max_value c) value)) with NaN; [reflexivity|].
    unfold py_max, num_gt. now destruct (py_min (max_value c) value).
Qed.

Lemma nan_min_value_passes_validation_witness :
  coefficient_warnings "kNaN" (nan_bounded true) = []
  /\ (forall value, clamp (nan_bounded true) value = Raise ValueError).
Proof.
  apply (nan_min_value_passes_validation "kNaN" (nan_bounded true)); reflexivity.
Defined.

End ConfigLaws.

(** ** Robot address: where the two computations agree *)

Section AddressLaws.

Lemma length_append (a b : string) :
  String.length (a +:+ b) = String.length a + String.length b.
Proof.
  induction a as [|c a IH]; [reflexivity|].
  change (S (String.length (a +:+ b)) = S (String.length a + String.length b)).
  now rewrite IH.
Qed.

Lemma length_pretty_N_go (x : N) :
  (0 < x)%N ->
  String.length (pretty_N_go x "")
  = S (String.length (pretty_N_go (x `div` 10) "")).
Proof.
  intros H. rewrite pretty_N_go_step by assumption.
  rewrite pretty_N_go_app, length_append. simpl. lia.
Qed.

Lemma length_pretty_N_go_1 (x : N) :
  (0 < x < 10)%N -> String.length (pretty_N_go x "") = 1.
Proof.
  intros H. rewrite length_pretty_N_go by lia.
  now rewrite N.div_small by lia.
Qed.

Lemma length_pretty_N_go_2 (x : N) :
  (10 <= x < 100)%N -> String.length (pretty_N_go x "") = 2.
Proof.
  intros H. rewrite length_pretty_N_go by lia.
  rewrite length_pretty_N_go_1; [reflexivity|].
  split; [apply N.div_str_pos; lia | apply N.Div0.div_lt_upper_bound; lia].
Qed.

Lemma length_pretty_N_go_3 (x : N) :
  (100 <= x < 1000)%N -> String.length (pretty_N_go x "") = 3.
Proof.
  intros H. rewrite length_pretty_N_go by lia.
  rewrite length_pretty_N_go_2; [reflexivity|].
  split; [apply N.div_le_lower_bound; lia | apply N.Div0.div_lt_upper_bound; lia].
Qed.

Lemma length_pretty_N_go_4 (x : N) :
  (1000 <= x < 10000)%N -> String.length (pretty_N_go x "") = 4.
Proof.
  intros H. rewrite length_pretty_N_go by lia.
  rewrite length_pretty_N_go_3; [reflexivity|].
  split; [apply N.div_le_lower_bound; lia | apply N.Div0.div_lt_upper_bound; lia].
Qed.

(** A number below 100 prints in two characters only from 10 on. *)
Lemma length_py_str_below_100 (z : Z) :
  (0 <= z < 100)%Z ->
  String.length (py_str z) = if (10 <=? z)%Z then 2 else 1.
Proof.
  intros H. destruct (Z.leb_spec 10 z).
  - rewrite py_str_pos by lia. apply length_pretty_N_go_2. lia.
  - destruct (Z.eq_dec z 0%Z) as [->|]; [reflexivity|].
    rewrite py_str_pos by lia. apply length_pretty_N_go_1. lia.
Qed.

Lemma length_py_str_team (t : Z) :
  (1 <= t <= 9999)%Z -> String.length (py_str t) <= 4.
Proof.
  intros H. rewrite py_str_pos by lia.
  assert (Z.to_N t < 10 \/ 10 <= Z.to_N t < 100 \/ 100 <= Z.to_N t < 1000
          \/ 1000 <= Z.to_N t < 10000)%N as [?|[?|[?|?]]] by lia.
  - rewrite length_pretty_N_go_1; lia.
  - rewrite length_pretty_N_go_2; lia.
  - rewrite length_pretty_N_go_3; lia.
  - rewrite length_pretty_N_go_4; lia.
Qed.

Lemma length_zeros (n : nat) : String.length (zeros n) = n.
Proof. induction n; simpl; auto. Qed.

Lemma length_zfill (width : nat) (s : string) :
  String.length (zfill width s) = (width - String.length s) + String.length s.
Proof.
  unfold zfill. destruct s as [|c rest].
  - rewrite length_zeros. simpl. lia.
  - destruct (_ || _)%bool.
    + change (S (String.length (zeros (width - String.length (String c rest)) +:+ rest))
              = width - String.length (String c rest) + String.length (String c rest)).
      rewrite length_append, length_zeros. simpl. lia.
    + now rewrite length_append, length_zeros.
Qed.

Lemma length_str_take (n : nat) (s : string) :
  String.length (str_take n s) = Nat.min n (String.length s).
Proof.
  revert s. induction n as [|n IH]; intros [|c s]; simpl; auto.
Qed.

Lemma length_str_drop (n : nat) (s : string) :
  String.length (str_drop n s) = String.length s - n.
Proof.
  revert s. induction n as [|n IH]; intros [|c s]; simpl; auto.
Qed.

(** For a team number of at most four digits the address of the daemon
    always has ten characters. *)
Lemma length_server_ip (t : Z) :
  (1 <= t <= 9999)%Z ->
  exists ip, server_ip t = Some ip /\ String.length ip = 10.
Proof.
  intros H. unfold server_ip.
  assert (Hpos : (t >? 0)%Z = true) by lia. rewrite Hpos.
  eexists. split; [reflexivity|].
  pose proof (length_py_str_team t H) as Hlen.
  pose proof (length_zfill 4 (py_str t)) as Hz.
  rewrite !length_append, length_str_take, length_str_drop, Hz.
  replace (4 - String.length (py_str t) + String.length (py_str t)) with 4 by lia.
  reflexivity.
Qed.

Lemma length_NT_SERVER_IP (t : Z) :
  String.length (NT_SERVER_IP t)
  = 6 + String.length (py_str (t `div` 100)) + String.length (py_str (t `mod` 100)).
Proof.
  unfold NT_SERVER_IP. rewrite !length_append. simpl. lia.
Qed.

(** X11. For every team number from 1 to 9999, the address that the daemon
    computes equals the address of [_load_toggles] exactly when the
    number has four digits and its last two digits are at least 10; in
    every other case the daemon's address carries a zero-padded group
    and the two differ. *)
Theorem server_ip_agreement (t : Z) :
  (1 <= t <= 9999)%Z ->
  (server_ip t = Some (NT_SERVER_IP t) <-> (1000 <= t)%Z /\ (10 <= t `mod` 100)%Z).
Proof.
  intros Ht. split.
  - intros E.
    destruct (length_server_ip t Ht) as (ip & Hip & Hlen).
    rewrite E in Hip. injection Hip as <-.
    rewrite length_NT_SERVER_IP in Hlen.
    assert (Hd : (0 <= t `div` 100 < 100)%Z).
    { split; [apply Z.div_pos; lia | apply Z.div_lt_upper_bound; lia]. }
    assert (Hm : (0 <= t `mod` 100 < 100)%Z) by (apply Z.mod_pos_bound; lia).
    rewrite !length_py_str_below_100 in Hlen by assumption.
    destruct (Z.leb_spec 10 (t `div` 100)), (Z.leb_spec 10 (t `mod` 100));
      try lia.
    split; [|assumption].
    pose proof (Z.mul_div_le t 100). lia.
  - intros [H1 H2]. apply server_ip_agrees_on_two_digit_groups; lia.
Qed.

Lemma server_ip_agreement_witness :
  server_ip 5892 = Some (NT_SERVER_IP 5892)
  /\ server_ip 1701 <> Some (NT_SERVER_IP 1701).
Proof.
  split.
  - apply (server_ip_agreement 5892); [lia|]. split; [lia|].
    vm_compute. discriminate.
  - intros E. apply (server_ip_agreement 1701) in E as [_ H]; [|lia].
    vm_compute in H. apply H. reflexivity.
Defined.

End AddressLaws.

(** ** Dashboard: sidebar and coefficient navigation *)

Section Navigation.

(** X12. A click flips the collapsed state of the sidebar, whatever class it
    had (also none, or an empty one); without a click the collapsed
    state stays as it is. *)
Theorem toggle_sidebar_flips (n_clicks : option Z) (current_class : option string) :
  collapsed (Some (toggle_sidebar n_clicks current_class))
  = match n_clicks with
    | Some n => if (n =? 0)%Z then collapsed current_class
                else negb (collapsed current_class)
    | None => collapsed current_class
    end.
Proof.
  unfold toggle_sidebar, collapsed.
  destruct n_clicks as [n|]; [destruct (n =? 0)%Z|];
    destruct current_class as [cls|]; simpl; try reflexivity.
  - destruct (String.eqb_spec cls ""); [now subst|reflexivity].
  - destruct (String.eqb_spec cls ""); [now subst|].
    simpl. now destruct (str_contains "collapsed" cls).
  - destruct (String.eqb_spec cls ""); [now subst|reflexivity].
Qed.

Lemma next_button (state : gmap string pyval) (v : pyval) :
  state !! "current_coefficient" = Some v ->
  handle_coefficient_navigation ["next-coeff-btn.n_clicks"] state
  = Ok (<["current_coefficient" :=
            VStr (nth (Z.to_nat ((current_index v + 1) `mod` 7)) coefficients "")]>
          state).
Proof.
  intros H. unfold handle_coefficient_navigation, getitem. now rewrite H.
Qed.

Lemma prev_button (state : gmap string pyval) (v : pyval) :
  state !! "current_coefficient" = Some v ->
  handle_coefficient_navigation ["prev-coeff-btn.n_clicks"] state
  = Ok (<["current_coefficient" :=
            VStr (nth (Z.to_nat ((current_index v - 1) `mod` 7)) coefficients "")]>
          state).
Proof.
  intros H. unfold handle_coefficient_navigation, getitem. now rewrite H.
Qed.

Lemma current_index_range (v : pyval) : (0 <= current_index v < 7)%Z.
Proof.
  destruct v as [| | | |s|]; try (simpl; lia).
  unfold current_index. destruct (list_mem s coefficients) eqn:E; [|lia].
  apply list_mem_In in E. simpl in E.
  repeat (destruct E as [<-|E]; [vm_compute; split; congruence|]).
  destruct E.
Qed.

Lemma nth_coefficients_index (s : string) :
  In s coefficients ->
  nth (Z.to_nat (current_index (VStr s))) coefficients "" = s.
Proof.
  intros E. simpl in E.
  repeat (destruct E as [<-|E]; [reflexivity|]). destruct E.
Qed.

Lemma current_index_nth (i : Z) :
  (0 <= i < 7)%Z ->
  current_index (VStr (nth (Z.to_nat i) coefficients "")) = i
  /\ In (nth (Z.to_nat i) coefficients "") coefficients.
Proof.
  intros H.
  assert (i = 0 \/ i = 1 \/ i = 2 \/ i = 3 \/ i = 4 \/ i = 5 \/ i = 6)%Z
    as [->|[->|[->|[->|[->|[->| ->]]]]]] by lia;
    (split; [reflexivity | simpl; tauto]).
Qed.

(** X13. From any stored value, known coefficient or not, the next and the
    previous button lead to one of the seven coefficients and change no
    other key; without a [current_coefficient] key the callback raises
    [KeyError], whichever button was pressed. *)
Theorem navigation_stays_on_coefficients (trigger : string)
    (state : gmap string pyval) :
  (trigger = "next-coeff-btn.n_clicks" \/ trigger = "prev-coeff-btn.n_clicks") ->
  (forall v, state !! "current_coefficient" = Some v ->
     exists s, In s coefficients
               /\ handle_coefficient_navigation [trigger] state
                  = Ok (<["current_coefficient" := VStr s]> state))
  /\ (state !! "current_coefficient" = None ->
      forall prop_id others,
        handle_coefficient_navigation (prop_id :: others) state = Raise KeyError).
Proof.
  intros Hb. split.
  - intros v Hv. pose proof (current_index_range v) as Hr.
    destruct Hb as [-> | ->].
    + rewrite (next_button state v Hv). eexists. split; [|reflexivity].
      apply current_index_nth. apply Z.mod_pos_bound. lia.
    + rewrite (prev_button state v Hv). eexists. split; [|reflexivity].
      apply current_index_nth. apply Z.mod_pos_bound. lia.
  - intros Hnone prop_id others. unfold handle_coefficient_navigation, getitem.
    now rewrite Hnone.
Qed.

Lemma navigation_stays_on_coefficients_witness :
  exists s, In s coefficients
            /\ handle_coefficient_navigation ["next-coeff-btn.n_clicks"]
                 {[ "current_coefficient" := VInt 3 ]}
               = Ok (<["current_coefficient" := VStr s]>
                       {[ "current_coefficient" := VInt 3 ]}).
Proof.
  destruct (navigation_stays_on_coefficients "next-coeff-btn.n_clicks"
              {[ "current_coefficient" := VInt 3 ]}) as [H _].
  - now left.
  - apply (H (VInt 3)). reflexivity.
Defined.

(** X14. Next and previous undo each other: from a state that shows one of
    the seven coefficients, pressing one button and then the other gives
    the state back, the last coefficient wrapping to the first. *)
Theorem navigation_round_trip (state : gmap string pyval) (s : string) :
  state !! "current_coefficient" = Some (VStr s) ->
  In s coefficients ->
  (exists st, handle_coefficient_navigation ["next-coeff-btn.n_clicks"] state = Ok st
              /\ handle_coefficient_navigation ["prev-coeff-btn.n_clicks"] st = Ok state)
  /\ (exists st, handle_coefficient_navigation ["prev-coeff-btn.n_clicks"] state = Ok st
                 /\ handle_coefficient_navigation ["next-coeff-btn.n_clicks"] st = Ok state).
Proof.
  intros Hs Hin.
  pose proof (current_index_range (VStr s)) as Hr.
  pose proof (nth_coefficients_index s Hin) as Hnth.
  split; eexists; (split; [first [apply (next_button _ _ Hs) | apply (prev_button _ _ Hs)]|]).
  - erewrite prev_button by apply lookup_insert_eq.
    destruct (current_index_nth ((current_index (VStr s) + 1) `mod` 7)) as [-> _];
      [apply Z.mod_pos_bound; lia|].
    replace (((current_index (VStr s) + 1) `mod` 7 - 1) `mod` 7)%Z
      with (current_index (VStr s)).
    2:{ rewrite Zminus_mod_idemp_l. replace (current_index (VStr s) + 1 - 1)%Z
          with (current_index (VStr s)) by lia. now rewrite Z.mod_small. }
    rewrite Hnth, insert_insert_eq. now rewrite insert_id.
  - erewrite next_button by apply lookup_insert_eq.
    destruct (current_index_nth ((current_index (VStr s) - 1) `mod` 7)) as [-> _];
      [apply Z.mod_pos_bound; lia|].
    replace (((current_index (VStr s) - 1) `mod` 7 + 1) `mod` 7)%Z
      with (current_index (VStr s)).
    2:{ rewrite Zplus_mod_idemp_l. replace (current_index (VStr s) - 1 + 1)%Z
          with (current_index (VStr s)) by lia. now rewrite Z.mod_small. }
    rewrite Hnth, insert_insert_eq. now rewrite insert_id.
Qed.

Lemma navigation_round_trip_witness :
  exists st,
    handle_coefficient_navigation ["prev-coeff-btn.n_clicks"] at_shot_height = Ok st
    /\ handle_coefficient_navigation ["next-coeff-btn.n_clicks"] st = Ok at_shot_height.
Proof.
  apply (navigation_round_trip at_shot_height "kShotHeight").
  - reflexivity.
  - simpl. tauto.
Defined.

End Navigation.

(** ** Binary64 rounding *)

Section Binary64.

Local Open Scope Q_scope.

Lemma pow2_pos (e : Z) : 0 < pow2 e.
Proof. apply Qpower_0_lt. reflexivity. Qed.

Lemma pow2_add (a b : Z) : pow2 (a + b) == pow2 a * pow2 b.
Proof. apply Qpower_plus. discriminate. Qed.

Lemma pow2_le (a b : Z) : (a <= b)%Z -> pow2 a <= pow2 b.
Proof. intros H. apply Qpower_le_compat_l; [assumption|discriminate]. Qed.

Lemma pow2_le_inv (a b : Z) : pow2 a <= pow2 b -> (a <= b)%Z.
Proof. intros H. apply (Qpower_le_compat_l_inv _ _ _ H). reflexivity. Qed.

Lemma pow2_lt_inv (a b : Z) : pow2 a < pow2 b -> (a < b)%Z.
Proof. intros H. apply (Qpower_lt_compat_l_inv _ _ _ H). reflexivity. Qed.

Lemma pow2_nonneg_Z (a : Z) : (0 <= a)%Z -> pow2 a == inject_Z (2 ^ a).
Proof. intros H. unfold pow2. now rewrite Zpower_Qpower. Qed.

Lemma pow2_opp (a : Z) : pow2 (- a) == / pow2 a.
Proof. apply Qpower_opp. Qed.

(** The quotient of two positive integers against the powers of two that
    their binary logarithms give. *)
Lemma log2_bounds (q : Q) :
  0 < q ->
  pow2 (Z.log2 (Qnum q) - Z.log2 (Zpos (Qden q)) - 1) <= q
  /\ q < pow2 (Z.log2 (Qnum q) - Z.log2 (Zpos (Qden q)) + 1).
Proof.
  destruct q as [n d]. intros Hq. cbn [Qnum Qden].
  assert (Hn : (0 < n)%Z) by (unfold Qlt in Hq; simpl in Hq; lia).
  destruct (Z.log2_spec n Hn) as [Ha1 Ha2].
  destruct (Z.log2_spec (Zpos d) (Pos2Z.is_pos d)) as [Hb1 Hb2].
  pose proof (Z.log2_nonneg n) as Ha0.
  pose proof (Z.log2_nonneg (Zpos d)) as Hb0.
  set (a := Z.log2 n) in *. set (b := Z.log2 (Zpos d)) in *.
  assert (Ea : pow2 a == inject_Z (2 ^ a)) by now apply pow2_nonneg_Z.
  assert (Eb : pow2 b == inject_Z (2 ^ b)) by now apply pow2_nonneg_Z.
  assert (Ea1 : pow2 (a + 1) == inject_Z (2 ^ (a + 1))) by (apply pow2_nonneg_Z; lia).
  assert (Eb1 : pow2 (b + 1) == inject_Z (2 ^ (b + 1))) by (apply pow2_nonneg_Z; lia).
  rewrite (Qmake_Qdiv n d).
  assert (Hd : 0 < inject_Z (Zpos d)) by reflexivity.
  split.
  - apply Qle_shift_div_l; [exact Hd|].
    replace (a - b - 1)%Z with (a + - (b + 1))%Z by lia.
    rewrite pow2_add, pow2_opp.
    apply Qle_trans with (pow2 a * / pow2 (b + 1) * pow2 (b + 1)).
    + apply Qmult_le_l.
      * apply Qmult_lt_0_compat; [apply pow2_pos|apply Qinv_lt_0_compat, pow2_pos].
      * rewrite Eb1, <- Zle_Qle. lia.
    + rewrite <- Qmult_assoc, (Qmult_comm (/ _)), Qmult_inv_r, Qmult_1_r
        by (pose proof (pow2_pos (b + 1)); lra).
      rewrite Ea, <- Zle_Qle. lia.
  - apply Qlt_shift_div_r; [exact Hd|].
    replace (a - b + 1)%Z with ((a + 1) + - b)%Z by lia.
    rewrite pow2_add, pow2_opp.
    apply Qlt_le_trans with (pow2 (a + 1) * / pow2 b * pow2 b).
    + rewrite <- Qmult_assoc, (Qmult_comm (/ _)), Qmult_inv_r, Qmult_1_r
        by (pose proof (pow2_pos b); lra).
      rewrite Ea1, <- Zlt_Qlt. lia.
    + apply Qmult_le_l.
      * apply Qmult_lt_0_compat; [apply pow2_pos|apply Qinv_lt_0_compat, pow2_pos].
      * rewrite Eb, <- Zle_Qle. lia.
Qed.

(** The exponent chosen for a positive number: its last place is at
    least that of the least subnormal, the number is below 2^53 units of
    it and, above the subnormal range, at least 2^52 units. *)
Lemma ulp_exponent_spec (q : Q) :
  0 < q ->
  (-1074 <= ulp_exponent q)%Z
  /\ q < pow2 (ulp_exponent q + 53)
  /\ ((-1074 < ulp_exponent q)%Z -> pow2 (ulp_exponent q + 52) <= q).
Proof.
  intros Hq. unfold ulp_exponent.
  destruct (log2_bounds q Hq) as [Hlo Hhi].
  set (g := (Z.log2 (Qnum q) - Z.log2 (Zpos (Qden q)) - 52)%Z) in *.
  replace (Z.log2 (Qnum q) - Z.log2 (Zpos (Qden q)) - 1)%Z with (g + 51)%Z in Hlo
    by (subst g; lia).
  replace (Z.log2 (Qnum q) - Z.log2 (Zpos (Qden q)) + 1)%Z with (g + 53)%Z in Hhi
    by (subst g; lia).
  assert (He : exists e, (if Qle_bool (pow2 (g + 52)) q then g else (g - 1)%Z) = e
                         /\ pow2 (e + 52) <= q /\ q < pow2 (e + 53)).
  { destruct (Qle_bool (pow2 (g + 52)) q) eqn:E.
    - apply Qle_bool_iff in E. eauto.
    - exists (g - 1)%Z. split; [reflexivity|].
      replace (g - 1 + 52)%Z with (g + 51)%Z by lia.
      replace (g - 1 + 53)%Z with (g + 52)%Z by lia.
      split; [assumption|]. apply Qnot_le_lt. intros H.
      apply Qle_bool_iff in H. congruence. }
  destruct He as (e & -> & H1 & H2).
  split; [lia|]. split.
  - apply Qlt_le_trans with (pow2 (e + 53)); [assumption|]. apply pow2_le. lia.
  - intros H. replace (Z.max e (-1074)) with e by lia. assumption.
Qed.

Lemma round_half_even_error (x : Q) :
  Qabs (inject_Z (round_half_even x) - x) <= 1 # 2.
Proof.
  pose proof (Qfloor_le x) as H1. pose proof (Qlt_floor x) as H2.
  rewrite inject_Z_plus in H2.
  apply Qabs_Qle_condition. unfold round_half_even.
  change (inject_Z 1) with 1 in H2.
  destruct (Qcompare_spec (x - inject_Z (Qfloor x)) (1 # 2)) as [E|E|E];
    [destruct (Z.even _)|..]; rewrite ?inject_Z_plus;
    change (inject_Z 1) with 1; split; lra.
Qed.

Lemma nearest_pos_error (q : Q) :
  0 < q ->
  Qabs (nearest_pos q - q) <= pow2 (ulp_exponent q - 1).
Proof.
  intros Hq. unfold nearest_pos. set (e := ulp_exponent q).
  pose proof (pow2_pos e) as He.
  pose proof (round_half_even_error (q / pow2 e)) as Hr.
  assert (E : inject_Z (round_half_even (q / pow2 e)) * pow2 e - q
              == (inject_Z (round_half_even (q / pow2 e)) - q / pow2 e) * pow2 e).
  { field. lra. }
  rewrite E, Qabs_Qmult, (Qabs_pos (pow2 e)) by lra.
  replace (e - 1)%Z with (-1 + e)%Z by lia. rewrite pow2_add.
  apply Qmult_le_compat_r; [|lra]. exact Hr.
Qed.

Lemma round_half_even_nonneg (x : Q) : 0 <= x -> (0 <= round_half_even x)%Z.
Proof.
  intros H. pose proof (floor_le_round x).
  assert (0 <= Qfloor x)%Z; [|lia].
  change 0%Z with (Qfloor 0). now apply Qfloor_resp_le.
Qed.

Lemma round_half_even_le_int (x : Q) (z : Z) :
  x <= inject_Z z -> (round_half_even x <= z)%Z.
Proof.
  intros H. rewrite <- (round_half_even_int z).
  now apply round_half_even_monotone.
Qed.

(** Below a power of two that is a multiple of the unit in the last
    place, the rounded number stays below it. *)
Lemma nearest_pos_le_pow2 (q : Q) (k : Z) :
  0 < q -> q <= pow2 k -> (ulp_exponent q <= k)%Z -> nearest_pos q <= pow2 k.
Proof.
  intros Hq Hk Hek. unfold nearest_pos. set (e := ulp_exponent q) in *.
  pose proof (pow2_pos e) as He.
  assert (E : pow2 k == inject_Z (2 ^ (k - e)) * pow2 e).
  { rewrite <- pow2_nonneg_Z by lia. rewrite <- pow2_add. now replace (k - e + e)%Z with k by lia. }
  rewrite E. apply Qmult_le_compat_r; [|lra].
  rewrite <- Zle_Qle. apply round_half_even_le_int.
  apply Qle_shift_div_r; [exact He|]. now rewrite <- E.
Qed.

Lemma nearest_pos_nonneg (q : Q) : 0 < q -> 0 <= nearest_pos q.
Proof.
  intros Hq. unfold nearest_pos.
  pose proof (pow2_pos (ulp_exponent q)) as He.
  apply Qmult_le_0_compat; [|lra].
  change 0 with (inject_Z 0). rewrite <- Zle_Qle.
  apply round_half_even_nonneg.
  apply Qle_shift_div_l; [exact He|]. lra.
Qed.

Lemma ulp_exponent_le (q : Q) (k : Z) :
  0 < q -> q <= pow2 k -> (-1022 <= k)%Z -> (ulp_exponent q <= k - 52)%Z.
Proof.
  intros Hq Hk Hrange.
  destruct (ulp_exponent_spec q Hq) as (H1 & H2 & H3).
  destruct (Z.eq_dec (ulp_exponent q) (-1074)%Z) as [->|Hne]; [lia|].
  assert (Hlt : (-1074 < ulp_exponent q)%Z) by lia.
  specialize (H3 Hlt).
  assert (pow2 (ulp_exponent q + 52) <= pow2 k) by lra.
  apply pow2_le_inv in H. lia.
Qed.

Lemma nearest_pos_unit (q : Q) : 0 < q -> q <= 1 -> 0 <= nearest_pos q <= 1.
Proof.
  intros Hq H1. split; [now apply nearest_pos_nonneg|].
  change 1 with (pow2 0). apply nearest_pos_le_pow2; try assumption.
  pose proof (ulp_exponent_le q 0 Hq H1). lia.
Qed.

(** A whole number below 2^53 is a float: rounding leaves it alone. *)
Lemma nearest_pos_whole (q : Q) (z : Z) :
  q == inject_Z z -> (0 < z < 2 ^ 53)%Z -> nearest_pos q == inject_Z z.
Proof.
  intros Eq Hz.
  assert (Hq : 0 < q) by (rewrite Eq; change 0 with (inject_Z 0); rewrite <- Zlt_Qlt; lia).
  assert (Hq53 : q <= pow2 53).
  { rewrite Eq, pow2_nonneg_Z by lia. rewrite <- Zle_Qle. lia. }
  pose proof (ulp_exponent_le q 53 Hq Hq53) as He.
  unfold nearest_pos. set (e := ulp_exponent q) in *.
  assert (He0 : (e <= 0)%Z).
  { destruct (ulp_exponent_spec q Hq) as (H1 & H2 & H3). fold e in H1, H2, H3.
    destruct (Z.eq_dec e (-1074)%Z) as [->|Hne]; [lia|].
    assert (Hlt : (-1074 < e)%Z) by lia. specialize (H3 Hlt).
    assert (Hs : pow2 (e + 52) < pow2 53).
    { apply Qle_lt_trans with q; [assumption|].
      rewrite Eq, pow2_nonneg_Z by lia. rewrite <- Zlt_Qlt. lia. }
    apply pow2_lt_inv in Hs. lia. }
  pose proof (pow2_pos e) as Hp.
  assert (Ediv : q / pow2 e == inject_Z (z * 2 ^ (- e))).
  { rewrite inject_Z_mult, <- pow2_nonneg_Z by lia. rewrite pow2_opp, Eq. reflexivity. }
  rewrite (round_half_even_comp _ _ Ediv), round_half_even_int.
  rewrite inject_Z_mult, <- pow2_nonneg_Z by lia. rewrite pow2_opp.
  field. lra.
Qed.

(** The rounding error is at most half a unit in the last place: 2^-53
    of the number itself, or 2^-1075 in the subnormal range. *)
Lemma nearest_pos_relative_error (q : Q) :
  0 < q ->
  Qabs (nearest_pos q - q) <= q * pow2 (-53)
  \/ Qabs (nearest_pos q - q) <= pow2 (-1075).
Proof.
  intros Hq. pose proof (nearest_pos_error q Hq) as Herr.
  destruct (ulp_exponent_spec q Hq) as (H1 & H2 & H3).
  destruct (Z.eq_dec (ulp_exponent q) (-1074)%Z) as [E|Hne].
  - right. now rewrite E in Herr.
  - left. apply Qle_trans with (pow2 (ulp_exponent q - 1)); [assumption|].
    replace (ulp_exponent q - 1)%Z with ((ulp_exponent q + 52) + -53)%Z by lia.
    rewrite pow2_add. apply Qmult_le_compat_r; [apply H3; lia|].
    apply Qlt_le_weak, pow2_pos.
Qed.

(** Rounding a nonnegative number. *)
Lemma nearest_of_pos (q : Q) : 0 < q -> nearest q = nearest_pos q.
Proof.
  destruct q as [[|p|p] d]; intros H; try reflexivity;
    unfold Qlt in H; simpl in H; lia.
Qed.

Lemma nearest_of_zero (q : Q) : q == 0 -> nearest q = 0.
Proof.
  destruct q as [[|p|p] d]; intros H; try reflexivity;
    unfold Qeq in H; simpl in H; lia.
Qed.

Lemma Qzero_or_pos (q : Q) : 0 <= q -> q == 0 \/ 0 < q.
Proof.
  intros H. destruct (Qlt_le_dec 0 q) as [Hlt|Hle]; [now right|left; lra].
Qed.

(** Rounding is exact on the whole numbers below 2^53. *)
Lemma nearest_whole (q : Q) (z : Z) :
  q == inject_Z z -> (0 <= z < 2 ^ 53)%Z -> nearest q == inject_Z z.
Proof.
  intros Eq Hz. destruct (Z.eq_dec z 0%Z) as [->|Hne].
  - now rewrite (nearest_of_zero q Eq).
  - assert (Hq : 0 < q).
    { rewrite Eq. change 0 with (inject_Z 0). rewrite <- Zlt_Qlt. lia. }
    rewrite (nearest_of_pos q Hq). apply nearest_pos_whole; [assumption|lia].
Qed.

(** Rounding keeps a number on its side of a power of two in the normal
    range: powers of two are floats. *)
Lemma nearest_le_pow2 (q : Q) (k : Z) :
  0 <= q -> q <= pow2 k -> (-1022 <= k)%Z -> 0 <= nearest q <= pow2 k.
Proof.
  intros H0 Hk Hrange. destruct (Qzero_or_pos q H0) as [E|Hq].
  - rewrite (nearest_of_zero q E). split; [lra|apply Qlt_le_weak, pow2_pos].
  - rewrite (nearest_of_pos q Hq). split; [now apply nearest_pos_nonneg|].
    apply nearest_pos_le_pow2; try assumption.
    pose proof (ulp_exponent_le q k Hq Hk Hrange). lia.
Qed.

Lemma nearest_unit (q : Q) : 0 <= q -> q <= 1 -> 0 <= nearest q <= 1.
Proof.
  intros H0 H1. change 1 with (pow2 0). apply nearest_le_pow2; [assumption..|lia].
Qed.

Lemma nearest_pos_ge_pow2_aligned (q : Q) (k : Z) :
  0 < q -> pow2 k <= q -> (ulp_exponent q <= k)%Z -> pow2 k <= nearest_pos q.
Proof.
  intros Hq Hk Hek. unfold nearest_pos. set (e := ulp_exponent q) in *.
  pose proof (pow2_pos e) as He.
  assert (E : pow2 k == inject_Z (2 ^ (k - e)) * pow2 e).
  { rewrite <- pow2_nonneg_Z by lia. rewrite <- pow2_add.
    now replace (k - e + e)%Z with k by lia. }
  rewrite E. apply Qmult_le_compat_r; [|lra].
  rewrite <- Zle_Qle. rewrite <- (round_half_even_int (2 ^ (k - e))).
  apply round_half_even_monotone.
  apply Qle_shift_div_l; [exact He|]. now rewrite <- E.
Qed.

Lemma nearest_ge_pow2 (q : Q) (k : Z) :
  pow2 k <= q -> (-1074 <= k)%Z -> pow2 k <= nearest q.
Proof.
  intros Hk Hrange.
  assert (Hq : 0 < q) by (pose proof (pow2_pos k); lra).
  rewrite (nearest_of_pos q Hq).
  destruct (Z_le_gt_dec (ulp_exponent q) k) as [Hle|Hgt].
  - now apply nearest_pos_ge_pow2_aligned.
  - destruct (ulp_exponent_spec q Hq) as (H1 & H2 & H3).
    apply Qle_trans with (pow2 (ulp_exponent q + 52)).
    + apply pow2_le. lia.
    + apply nearest_pos_ge_pow2_aligned; [assumption|apply H3; lia|lia].
Qed.

(** The rounding error is at most half a unit in the last place. *)
Lemma nearest_relative_error (q : Q) :
  0 <= q ->
  Qabs (nearest q - q) <= q * pow2 (-53)
  \/ Qabs (nearest q - q) <= pow2 (-1075).
Proof.
  intros H0. destruct (Qzero_or_pos q H0) as [E|Hq].
  - right. rewrite (nearest_of_zero q E).
    assert (E' : 0 - q == 0) by lra. rewrite E'. apply Qlt_le_weak, pow2_pos.
  - rewrite (nearest_of_pos q Hq). now apply nearest_pos_relative_error.
Qed.

(** Within the float range the conversion returns the nearest float. *)
Lemma float_of_in_range (q : Q) :
  0 <= nearest q -> nearest q < pow2 1024 -> float_of q = Ok (Fin (nearest q)).
Proof.
  intros H0 H1. unfold float_of.
  destruct (Qle_bool (pow2 1024) (Qabs (nearest q))) eqn:E; [|reflexivity].
  apply Qle_bool_iff in E. rewrite Qabs_pos in E by assumption. lra.
Qed.

(** Rounding half to even stays below an integer that is more than a
    half away, and reaches an even integer that is at most a half
    away. *)
Lemma round_half_even_lt_int (x : Q) (m : Z) :
  x < inject_Z m - (1 # 2) -> (round_half_even x < m)%Z.
Proof.
  intros H. pose proof (round_half_even_error x) as He.
  apply Qabs_Qle_condition in He as [_ He].
  rewrite Zlt_Qlt. lra.
Qed.

Lemma round_half_even_ge_even (x : Q) (m : Z) :
  Z.even m = true -> inject_Z m - (1 # 2) <= x -> (m <= round_half_even x)%Z.
Proof.
  intros Hm H.
  pose proof (Qfloor_le x) as H1. pose proof (Qlt_floor x) as H2.
  rewrite inject_Z_plus in H2. change (inject_Z 1) with 1 in H2.
  unfold round_half_even.
  destruct (Qcompare_spec (x - inject_Z (Qfloor x)) (1 # 2)) as [E|E|E].
  - assert (Hf : inject_Z m <= inject_Z (Qfloor x + 1)).
    { rewrite inject_Z_plus. change (inject_Z 1) with 1. lra. }
    rewrite <- Zle_Qle in Hf.
    destruct (Z.even (Qfloor x)) eqn:Ev; [|lia].
    destruct (Z.eq_dec (Qfloor x) (m - 1)%Z) as [Eq|Hne]; [|lia].
    rewrite Eq, Z.even_sub, Hm in Ev. discriminate Ev.
  - assert (Hf : inject_Z m < inject_Z (Qfloor x + 1)).
    { rewrite inject_Z_plus. change (inject_Z 1) with 1. lra. }
    rewrite <- Zlt_Qlt in Hf. lia.
  - assert (Hf : inject_Z m < inject_Z (Qfloor x + 1 + 1)).
    { rewrite !inject_Z_plus. change (inject_Z 1) with 1. lra. }
    rewrite <- Zlt_Qlt in Hf. lia.
Qed.

Lemma threshold_split :
  inject_Z overflow_threshold == (inject_Z (2 ^ 53) - (1 # 2)) * pow2 971.
Proof. rewrite (pow2_nonneg_Z 971) by lia. vm_compute. reflexivity. Qed.

Lemma ulp_exponent_below_overflow (q : Q) :
  0 < q -> q < pow2 1024 -> (ulp_exponent q <= 971)%Z.
Proof.
  intros Hq H. destruct (ulp_exponent_spec q Hq) as (H1 & H2 & H3).
  destruct (Z.eq_dec (ulp_exponent q) (-1074)%Z) as [->|Hne]; [lia|].
  assert (Hs : pow2 (ulp_exponent q + 52) < pow2 1024).
  { apply Qle_lt_trans with q; [apply H3; lia|assumption]. }
  apply pow2_lt_inv in Hs. lia.
Qed.

Lemma nearest_pos_below_threshold (q : Q) :
  0 < q -> q < inject_Z overflow_threshold -> nearest_pos q < pow2 1024.
Proof.
  intros Hq H.
  assert (Hlt : q < pow2 1024).
  { apply Qlt_trans with (inject_Z overflow_threshold); [assumption|].
    rewrite pow2_nonneg_Z by lia. rewrite <- Zlt_Qlt. reflexivity. }
  pose proof (ulp_exponent_below_overflow q Hq Hlt) as He.
  destruct (ulp_exponent_spec q Hq) as (H1 & H2 & H3).
  destruct (Z.eq_dec (ulp_exponent q) 971%Z) as [E|Hne].
  - unfold nearest_pos. rewrite E.
    pose proof (pow2_pos 971) as Hp.
    assert (Hr : (round_half_even (q / pow2 971) < 2 ^ 53)%Z).
    { apply round_half_even_lt_int. apply Qlt_shift_div_r; [exact Hp|].
      now rewrite <- threshold_split. }
    apply Qle_lt_trans with (inject_Z (2 ^ 53 - 1) * pow2 971).
    + apply Qmult_le_compat_r; [|lra]. rewrite <- Zle_Qle. lia.
    + rewrite (pow2_nonneg_Z 971), (pow2_nonneg_Z 1024) by lia.
      rewrite <- inject_Z_mult, <- Zlt_Qlt. reflexivity.
  - apply Qle_lt_trans with (pow2 1023); [|reflexivity].
    apply nearest_pos_le_pow2; [assumption| |lia].
    apply Qle_trans with (pow2 (ulp_exponent q + 53)); [lra|apply pow2_le; lia].
Qed.

Lemma nearest_pos_beyond_threshold (q : Q) :
  inject_Z overflow_threshold <= q -> pow2 1024 <= nearest_pos q.
Proof.
  intros H.
  assert (Hq : 0 < q).
  { apply Qlt_le_trans with (inject_Z overflow_threshold); [reflexivity|assumption]. }
  destruct (Qlt_le_dec q (pow2 1024)) as [Hlt|Hge].
  - pose proof (ulp_exponent_below_overflow q Hq Hlt) as He.
    destruct (ulp_exponent_spec q Hq) as (H1 & H2 & H3).
    assert (E : ulp_exponent q = 971%Z).
    { assert (Hs : pow2 1023 < pow2 (ulp_exponent q + 53)).
      { apply Qle_lt_trans with q; [|assumption].
        apply Qle_trans with (inject_Z overflow_threshold); [|assumption].
        rewrite pow2_nonneg_Z by lia. rewrite <- Zle_Qle. discriminate. }
      apply pow2_lt_inv in Hs. lia. }
    unfold nearest_pos. rewrite E.
    pose proof (pow2_pos 971) as Hp.
    assert (Hr : (2 ^ 53 <= round_half_even (q / pow2 971))%Z).
    { apply round_half_even_ge_even; [reflexivity|].
      apply Qle_shift_div_l; [exact Hp|]. now rewrite <- threshold_split. }
    apply Qle_trans with (inject_Z (2 ^ 53) * pow2 971).
    + rewrite (pow2_nonneg_Z 971), (pow2_nonneg_Z 1024) by lia.
      rewrite <- inject_Z_mult, <- Zle_Qle. discriminate.
    + apply Qmult_le_compat_r; [|lra]. now rewrite <- Zle_Qle.
  - rewrite <- (nearest_of_pos q Hq). apply nearest_ge_pow2; [assumption|lia].
Qed.

(** The magnitude of the rounded number is the rounded magnitude. *)
Lemma nearest_abs (q : Q) :
  Qabs (nearest q) == match Qnum q with Z0 => 0 | _ => nearest_pos (Qabs q) end.
Proof.
  destruct q as [[|p|p] d]; unfold nearest; cbn [Qnum].
  - reflexivity.
  - apply Qabs_pos, nearest_pos_nonneg. reflexivity.
  - rewrite Qabs_opp. apply Qabs_pos, nearest_pos_nonneg. reflexivity.
Qed.

(** [float_of] raises exactly from the overflow threshold on. *)
Lemma float_of_below_threshold (q : Q) :
  Qabs q < inject_Z overflow_threshold -> float_of q = Ok (Fin (nearest q)).
Proof.
  intros H. unfold float_of.
  destruct (Qle_bool (pow2 1024) (Qabs (nearest q))) eqn:E; [|reflexivity].
  apply Qle_bool_iff in E. rewrite nearest_abs in E.
  destruct q as [[|p|p] d]; cbn [Qnum] in E.
  - pose proof (pow2_pos 1024). lra.
  - pose proof (nearest_pos_below_threshold (Qabs (Zpos p # d)) eq_refl H). lra.
  - pose proof (nearest_pos_below_threshold (Qabs (Zneg p # d)) eq_refl H). lra.
Qed.

Lemma float_of_beyond_threshold (q : Q) :
  inject_Z overflow_threshold <= Qabs q -> float_of q = Raise OverflowError.
Proof.
  intros H. unfold float_of.
  assert (E : Qle_bool (pow2 1024) (Qabs (nearest q)) = true); [|now rewrite E].
  apply Qle_bool_iff. rewrite nearest_abs.
  destruct q as [[|p|p] d]; cbn [Qnum].
  - exfalso. revert H. apply Qlt_not_le. reflexivity.
  - now apply nearest_pos_beyond_threshold.
  - now apply nearest_pos_beyond_threshold.
Qed.

Lemma round_half_even_gt_int (x : Q) (m : Z) :
  inject_Z m - (1 # 2) < x -> (m <= round_half_even x)%Z.
Proof.
  intros H. pose proof (round_half_even_error x) as He.
  apply Qabs_Qle_condition in He as [He _].
  assert (Hlt : inject_Z m < inject_Z (round_half_even x + 1)).
  { rewrite inject_Z_plus. change (inject_Z 1) with 1. lra. }
  rewrite <- Zlt_Qlt in Hlt. lia.
Qed.

(** No integer is nearer than the rounded one. *)
Lemma round_half_even_nearest (x : Q) (M : Z) :
  Qabs (inject_Z (round_half_even x) - x) <= Qabs (inject_Z M - x).
Proof.
  pose proof (round_half_even_error x) as He.
  destruct (Qlt_le_dec (Qabs (inject_Z M - x)) (1 # 2)) as [Hnear|Hfar]; [|lra].
  apply Qabs_Qlt_condition in Hnear as [H1 H2].
  assert (Hlo : (M <= round_half_even x)%Z) by (apply round_half_even_gt_int; lra).
  assert (Hhi : (round_half_even x < M + 1)%Z).
  { apply round_half_even_lt_int. rewrite inject_Z_plus.
    change (inject_Z 1) with 1. lra. }
  replace (round_half_even x) with M by lia. apply Qle_refl.
Qed.

(** No multiple of the unit in the last place is nearer than the rounded
    number. *)
Lemma nearest_pos_nearest_multiple (q : Q) (M : Z) :
  0 < q ->
  Qabs (nearest_pos q - q) <= Qabs (inject_Z M * pow2 (ulp_exponent q) - q).
Proof.
  intros Hq. unfold nearest_pos. set (e := ulp_exponent q).
  pose proof (pow2_pos e) as He.
  assert (E : forall z : Z,
             inject_Z z * pow2 e - q == (inject_Z z - q / pow2 e) * pow2 e).
  { intros z. field. lra. }
  rewrite !E, !Qabs_Qmult, (Qabs_pos (pow2 e)) by lra.
  apply Qmult_le_compat_r; [|lra]. apply round_half_even_nearest.
Qed.

(** No float is nearer than the rounded number. *)
Lemma nearest_pos_nearest (q f : Q) :
  0 < q -> binary64 f -> Qabs (nearest_pos q - q) <= Qabs (f - q).
Proof.
  intros Hq (m & e & Hm & He & Ef).
  destruct (ulp_exponent_spec q Hq) as (H1 & H2 & H3).
  set (e0 := ulp_exponent q) in *.
  destruct (Z_le_gt_dec e0 e) as [Hle|Hgt].
  - assert (E : f == inject_Z (m * 2 ^ (e - e0)) * pow2 e0).
    { rewrite Ef, inject_Z_mult, <- pow2_nonneg_Z by lia.
      rewrite <- Qmult_assoc, <- pow2_add.
      now replace (e - e0 + e0)%Z with e by lia. }
    rewrite E. now apply nearest_pos_nearest_multiple.
  - assert (Hb : pow2 (e0 + 52) <= q) by (apply H3; lia).
    assert (Hf : f <= pow2 (e0 + 52)).
    { rewrite Ef. apply Qle_trans with (inject_Z (2 ^ 53) * pow2 e).
      - apply Qmult_le_compat_r; [|apply Qlt_le_weak, pow2_pos].
        rewrite <- Zle_Qle. lia.
      - rewrite <- pow2_nonneg_Z by lia. rewrite <- pow2_add.
        apply pow2_le. lia. }
    assert (E : pow2 (e0 + 52) == inject_Z (2 ^ 52) * pow2 e0).
    { rewrite <- pow2_nonneg_Z by lia. rewrite <- pow2_add.
      now replace (52 + e0)%Z with (e0 + 52)%Z by lia. }
    pose proof (nearest_pos_nearest_multiple q (2 ^ 52) Hq) as Hn.
    fold e0 in Hn. rewrite <- E in Hn.
    apply Qle_trans with (Qabs (pow2 (e0 + 52) - q)); [exact Hn|].
    rewrite !Qabs_neg by lra. lra.
Qed.

(** Below the overflow the rounded number is a float. *)
Lemma nearest_pos_binary64 (q : Q) :
  0 < q -> nearest_pos q < pow2 1024 -> binary64 (nearest_pos q).
Proof.
  intros Hq Hfin.
  destruct (ulp_exponent_spec q Hq) as (H1 & H2 & H3).
  pose proof (nearest_pos_nonneg q Hq) as H0.
  unfold nearest_pos in *. set (e := ulp_exponent q) in *.
  pose proof (pow2_pos e) as He.
  set (m := round_half_even (q / pow2 e)) in *.
  assert (Hm0 : (0 <= m)%Z).
  { apply round_half_even_nonneg. apply Qle_shift_div_l; [exact He|]. lra. }
  assert (Hm1 : (m <= 2 ^ 53)%Z).
  { apply round_half_even_le_int. apply Qle_shift_div_r; [exact He|].
    rewrite <- pow2_nonneg_Z by lia. rewrite <- pow2_add.
    replace (53 + e)%Z with (e + 53)%Z by lia. lra. }
  destruct (Z.eq_dec m (2 ^ 53)%Z) as [E|Hne].
  - exists (2 ^ 52)%Z, (e + 1)%Z.
    assert (Es : inject_Z m * pow2 e == pow2 (e + 53)).
    { rewrite E, <- pow2_nonneg_Z by lia. rewrite <- pow2_add.
      now replace (53 + e)%Z with (e + 53)%Z by lia. }
    rewrite Es in Hfin. apply pow2_lt_inv in Hfin.
    split; [lia|]. split; [lia|].
    rewrite Es, <- pow2_nonneg_Z by lia. rewrite <- pow2_add.
    now replace (52 + (e + 1))%Z with (e + 53)%Z by lia.
  - exists m, e. split; [lia|]. split; [|reflexivity]. split; [lia|].
    destruct (Z_le_gt_dec e 971) as [Hle|Hgt]; [assumption|exfalso].
    assert (Hb : pow2 (e + 52) <= q) by (apply H3; lia).
    pose proof (nearest_pos_ge_pow2_aligned q (e + 52) Hq Hb) as Hge.
    fold e in Hge. unfold nearest_pos in Hge. fold e in Hge. fold m in Hge.
    assert (Hp : pow2 1024 <= pow2 (e + 52)) by (apply pow2_le; lia).
    specialize (Hge ltac:(lia)). lra.
Qed.

Lemma binary64_zero : binary64 0.
Proof. exists 0%Z, 0%Z. split; [reflexivity|]. split; [lia|reflexivity]. Qed.

(** At a nonnegative number within the float range [nearest] returns a
    float, and no float is nearer. *)
Lemma nearest_correctly_rounded (q : Q) :
  0 <= q -> nearest q < pow2 1024 ->
  binary64 (nearest q)
  /\ forall f, binary64 f -> Qabs (nearest q - q) <= Qabs (f - q).
Proof.
  intros H0 Hfin. destruct (Qzero_or_pos q H0) as [E|Hq].
  - rewrite (nearest_of_zero q E). split; [apply binary64_zero|].
    intros f _. assert (E' : 0 - q == 0) by lra. rewrite E'. apply Qabs_nonneg.
  - rewrite (nearest_of_pos q Hq) in *. split.
    + now apply nearest_pos_binary64.
    + intros f Hf. now apply nearest_pos_nearest.
Qed.

End Binary64.

(** ** Dashboard: shot recording *)

Section ShotRecording.

Local Open Scope Q_scope.

Lemma success_rate_bounds (h n : Z) :
  (0 <= h <= n)%Z -> (0 < n)%Z ->
  0 <= inject_Z h / inject_Z n <= 1.
Proof.
  intros [H0 Hn] Hpos.
  assert (Hq : inject_Z 0 < inject_Z n) by (now rewrite <- Zlt_Qlt).
  split.
  - apply Qle_shift_div_l; [exact Hq|]. rewrite Qmult_0_l.
    change (inject_Z 0 <= inject_Z h). now rewrite <- Zle_Qle.
  - apply Qle_shift_div_r; [exact Hq|]. rewrite Qmult_1_l.
    now rewrite <- Zle_Qle.
Qed.

Lemma num_compare_of_int (a b : Z) :
  num_compare (of_int a) (of_int b) = Some (a ?= b)%Z.
Proof.
  unfold num_compare, of_int, Qcompare. simpl. now rewrite !Z.mul_1_r.
Qed.

Lemma py_gt_zero_int (n : Z) : py_gt_zero (VInt n) = Ok (0 <? n)%Z.
Proof.
  change (py_gt_zero (VInt n)) with (Ok (num_gt (of_int n) (of_int 0)) : result bool).
  unfold num_gt. rewrite num_compare_of_int. f_equal.
  destruct (Z.compare_spec n 0), (Z.ltb_spec 0 n); try reflexivity; lia.
Qed.

(** The quotient of two [int]s is their exact quotient, converted. *)
Lemma py_truediv_ints (h n : Z) :
  n <> 0%Z ->
  py_truediv (VInt h) (VInt n)
  = (q ← float_of (inject_Z h / inject_Z n); Ok (VFloat q)).
Proof.
  intros Hn. unfold py_truediv. cbn [as_int].
  destruct (Z.eqb_spec n 0); [contradiction|reflexivity].
Qed.

(** What a recording does to the state, whatever the quotient comes
    to. *)
Lemma handle_shot_recording_ints (prop_id : string) (others : list string)
    (state : gmap string pyval) (n h : Z) :
  get_or_zero state "shot_count" = VInt n ->
  get_or_zero state "total_hits" = VInt h ->
  (0 <= n)%Z ->
  let hit := String.eqb (split_head "." prop_id) "record-hit-btn" in
  let h' := (if hit then h + 1 else h)%Z in
  handle_shot_recording (prop_id :: others) state
  = (q ← float_of (inject_Z h' / inject_Z (n + 1));
     Ok (<["success_rate" := VFloat q]>
           (if hit
            then <["total_hits" := VInt h']> (<["shot_count" := VInt (n + 1)]> state)
            else <["shot_count" := VInt (n + 1)]> state))).
Proof.
  intros Hn Hh Hpos hit h'.
  unfold handle_shot_recording. fold hit. rewrite Hn.
  cbn [py_add_one mbind result_bind].
  assert (Hh2 : get_or_zero (<["shot_count" := VInt (n + 1)]> state) "total_hits"
                = VInt h).
  { unfold get_or_zero in *. now rewrite lookup_insert_ne. }
  rewrite Hh2, py_gt_zero_int. subst h'.
  assert (Hlt : (0 <? n + 1)%Z = true) by lia. rewrite Hlt.
  destruct hit; cbn [py_add_one mbind result_bind];
    rewrite py_truediv_ints by lia;
    destruct (float_of _); reflexivity.
Qed.

(** C9. A recording (the callback context names a trigger) on a state
    whose counters satisfy [0 <= total_hits <= shot_count] increments
    [shot_count] by one, increments [total_hits] by one exactly when the
    hit button was the trigger and leaves it alone otherwise, and sets
    [success_rate] to [total_hits / shot_count] of the new counters: a
    float than which no float is nearer to the exact quotient, which
    differs from it by at most 2^-53 of the quotient (2^-1075 in the
    subnormal range) and is exactly 0 without a hit and exactly 1 when
    every shot was a hit. The
    new counters satisfy [0 <= total_hits <= shot_count] again and the
    rate lies in [[0, 1]]. No other key of the state changes. *)
Theorem shot_recording_preserves_counters (prop_id : string) (others : list string)
    (state : gmap string pyval) (n h : Z) :
  get_or_zero state "shot_count" = VInt n ->
  get_or_zero state "total_hits" = VInt h ->
  (0 <= h <= n)%Z ->
  let hit := String.eqb (split_head "." prop_id) "record-hit-btn" in
  let h' := (if hit then h + 1 else h)%Z in
  let quotient := inject_Z h' / inject_Z (n + 1) in
  exists (state' : gmap string pyval) (rate : Q),
    handle_shot_recording (prop_id :: others) state = Ok state'
    /\ state' !! "shot_count" = Some (VInt (n + 1))
    /\ get_or_zero state' "total_hits" = VInt h'
    /\ (hit = false -> state' !! "total_hits" = state !! "total_hits")
    /\ state' !! "success_rate" = Some (VFloat (Fin rate))
    /\ py_truediv (VInt h') (VInt (n + 1)) = Ok (VFloat (Fin rate))
    /\ rate = nearest quotient
    /\ binary64 rate
    /\ (forall f, binary64 f -> Qabs (rate - quotient) <= Qabs (f - quotient))
    /\ (Qabs (rate - quotient) <= quotient * pow2 (-53)
        \/ Qabs (rate - quotient) <= pow2 (-1075))
    /\ (h' = 0%Z -> rate == 0)
    /\ (h' = (n + 1)%Z -> rate == 1)
    /\ (0 <= h' <= n + 1)%Z
    /\ 0 <= rate <= 1
    /\ (forall key, key <> "shot_count" -> key <> "total_hits" ->
                    key <> "success_rate" -> state' !! key = state !! key).
Proof.
  intros Hn Hh Hinv hit h' quotient.
  assert (Hpos : (0 < n + 1)%Z) by lia.
  assert (Hinv' : (0 <= h' <= n + 1)%Z) by (subst h'; destruct hit; lia).
  destruct (success_rate_bounds h' (n + 1) Hinv' Hpos) as [Hq0 Hq1].
  fold quotient in Hq0, Hq1.
  destruct (nearest_unit quotient Hq0 Hq1) as [Hr0 Hr1].
  assert (Hfloat : float_of quotient = Ok (Fin (nearest quotient))).
  { apply float_of_in_range; [assumption|].
    apply Qle_lt_trans with 1; [assumption|reflexivity]. }
  exists (<["success_rate" := VFloat (Fin (nearest quotient))]>
            (if hit then <["total_hits" := VInt h']> (<["shot_count" := VInt (n + 1)]> state)
             else <["shot_count" := VInt (n + 1)]> state)),
         (nearest quotient).
  split.
  { rewrite (handle_shot_recording_ints prop_id others state n h Hn Hh) by lia.
    fold hit. fold h'. fold quotient. now rewrite Hfloat. }
  split.
  { rewrite lookup_insert_ne by discriminate.
    destruct hit; [rewrite lookup_insert_ne by discriminate|];
      apply lookup_insert_eq. }
  split.
  { unfold get_or_zero in *. rewrite lookup_insert_ne by discriminate.
    subst h'. destruct hit.
    - now rewrite lookup_insert_eq.
    - rewrite lookup_insert_ne by discriminate. exact Hh. }
  split.
  { intros ->. rewrite !lookup_insert_ne by discriminate. reflexivity. }
  split; [apply lookup_insert_eq|].
  split.
  { rewrite py_truediv_ints by lia. fold quotient. now rewrite Hfloat. }
  split; [reflexivity|].
  assert (Hfin : nearest quotient < pow2 1024).
  { apply Qle_lt_trans with 1; [assumption|reflexivity]. }
  split; [now apply nearest_correctly_rounded|].
  split; [now apply nearest_correctly_rounded|].
  split; [now apply nearest_relative_error|].
  split.
  { intros E. rewrite (nearest_of_zero quotient); [reflexivity|].
    unfold quotient. rewrite E. reflexivity. }
  split.
  { intros E. apply (nearest_whole quotient 1); [|lia].
    unfold quotient. rewrite E. apply Qmult_inv_r.
    change 0 with (inject_Z 0). rewrite inject_Z_injective. lia. }
  split; [exact Hinv'|].
  split; [split; assumption|].
  intros key K1 K2 K3. rewrite lookup_insert_ne by congruence.
  destruct hit; rewrite !lookup_insert_ne by congruence; reflexivity.
Qed.

Lemma shot_recording_preserves_counters_witness :
  exists (state' : gmap string pyval) (rate : Q),
    handle_shot_recording ["record-hit-btn.n_clicks"] three_shots = Ok state'
    /\ state' !! "shot_count" = Some (VInt 4)
    /\ get_or_zero state' "total_hits" = VInt 2
    /\ (true = false -> state' !! "total_hits" = three_shots !! "total_hits")
    /\ state' !! "success_rate" = Some (VFloat (Fin rate))
    /\ py_truediv (VInt 2) (VInt 4) = Ok (VFloat (Fin rate))
    /\ rate = nearest (inject_Z 2 / inject_Z 4)
    /\ binary64 rate
    /\ (forall f, binary64 f ->
                  Qabs (rate - inject_Z 2 / inject_Z 4)
                  <= Qabs (f - inject_Z 2 / inject_Z 4))
    /\ (Qabs (rate - inject_Z 2 / inject_Z 4) <= inject_Z 2 / inject_Z 4 * pow2 (-53)
        \/ Qabs (rate - inject_Z 2 / inject_Z 4) <= pow2 (-1075))
    /\ (2%Z = 0%Z -> rate == 0)
    /\ (2%Z = 4%Z -> rate == 1)
    /\ (0 <= 2 <= 4)%Z
    /\ 0 <= rate <= 1
    /\ (forall key, key <> "shot_count" -> key <> "total_hits" ->
                    key <> "success_rate" -> state' !! key = three_shots !! key).
Proof.
  apply (shot_recording_preserves_counters "record-hit-btn.n_clicks" []
           three_shots 3 1); [reflexivity | reflexivity | lia].
Defined.

End ShotRecording.

(** ** Dashboard: shot recording without the counter invariant *)

Section ShotRecordingLaws.

Local Open Scope Q_scope.

Lemma Qdiv_ge (a d c : Z) :
  (0 < d)%Z -> (c * d <= a)%Z -> inject_Z c <= inject_Z a / inject_Z d.
Proof.
  intros Hd H.
  apply Qle_shift_div_l.
  - change 0 with (inject_Z 0). now rewrite <- Zlt_Qlt.
  - rewrite <- inject_Z_mult, <- Zle_Qle. exact H.
Qed.

Lemma Qdiv_lt (a d c : Z) :
  (0 < d)%Z -> (a < c * d)%Z -> inject_Z a / inject_Z d < inject_Z c.
Proof.
  intros Hd H.
  apply Qlt_shift_div_r.
  - change 0 with (inject_Z 0). now rewrite <- Zlt_Qlt.
  - rewrite <- inject_Z_mult, <- Zlt_Qlt. exact H.
Qed.

(** X15. [handle_shot_recording] does not check that [total_hits] is at
    most [shot_count]. On integer counters with [shot_count >= 0] and
    new [total_hits] at least twice the new [shot_count] (as a reset of
    [shot_count] alone leaves them), and a quotient below the overflow
    threshold 2^1024 - 2^970, it stores a success rate of 2 or more: the
    float nearest to the quotient, which after a reset is [total_hits]
    itself as long as that is below 2^53. *)
Theorem shot_recording_rate_unchecked (prop_id : string) (others : list string)
    (state : gmap string pyval) (n h : Z) :
  get_or_zero state "shot_count" = VInt n ->
  get_or_zero state "total_hits" = VInt h ->
  (0 <= n)%Z ->
  let hit := String.eqb (split_head "." prop_id) "record-hit-btn" in
  let h' := (if hit then h + 1 else h)%Z in
  (2 * (n + 1) <= h' < overflow_threshold * (n + 1))%Z ->
  exists (state' : gmap string pyval) (rate : Q),
    handle_shot_recording (prop_id :: others) state = Ok state'
    /\ state' !! "shot_count" = Some (VInt (n + 1))
    /\ state' !! "success_rate" = Some (VFloat (Fin rate))
    /\ rate = nearest (inject_Z h' / inject_Z (n + 1))
    /\ 2 <= rate
    /\ (n = 0%Z -> (h' < 2 ^ 53)%Z -> rate == inject_Z h').
Proof.
  intros Hn Hh Hpos hit h' [Hmany Hsmall].
  assert (Hn1 : (0 < n + 1)%Z) by lia.
  pose proof (handle_shot_recording_ints prop_id others state n h Hn Hh Hpos) as Hrun.
  cbv zeta in Hrun. fold hit in Hrun. fold h' in Hrun.
  set (quotient := inject_Z h' / inject_Z (n + 1)) in *.
  assert (Hq2 : pow2 1 <= quotient).
  { change (pow2 1) with (inject_Z 2). apply Qdiv_ge; lia. }
  assert (Hqhi : quotient < inject_Z overflow_threshold).
  { now apply Qdiv_lt. }
  assert (Hq0 : 0 <= quotient) by (pose proof (pow2_pos 1); lra).
  assert (Hfloat : float_of quotient = Ok (Fin (nearest quotient))).
  { apply float_of_below_threshold. now rewrite Qabs_pos. }
  rewrite Hfloat in Hrun. cbn [mbind result_bind] in Hrun.
  eexists _, (nearest quotient). split; [exact Hrun|].
  split.
  { rewrite lookup_insert_ne by discriminate.
    destruct hit; [rewrite lookup_insert_ne by discriminate|];
      apply lookup_insert_eq. }
  split; [apply lookup_insert_eq|].
  split; [reflexivity|].
  split.
  - change 2 with (pow2 1). apply nearest_ge_pow2; [assumption|lia].
  - intros E Hh53. apply nearest_whole; [|lia].
    unfold quotient. rewrite E. change (inject_Z (0 + 1)) with 1. field.
Qed.

Lemma shot_recording_rate_unchecked_witness :
  exists (state' : gmap string pyval) (rate : Q),
    handle_shot_recording ["record-hit-btn.n_clicks"] after_reset = Ok state'
    /\ state' !! "shot_count" = Some (VInt 1)
    /\ state' !! "success_rate" = Some (VFloat (Fin rate))
    /\ rate = nearest (inject_Z 6 / inject_Z 1)
    /\ 2 <= rate
    /\ (0%Z = 0%Z -> (6 < 2 ^ 53)%Z -> rate == inject_Z 6).
Proof.
  apply (shot_recording_rate_unchecked "record-hit-btn.n_clicks" [] after_reset 0 5);
    [reflexivity | reflexivity | lia | unfold overflow_threshold; simpl; lia].
Defined.

(** X18. The quotient of two [int]s is no float from the overflow
    threshold 2^1024 - 2^970 on: on integer counters with
    [shot_count >= 0] and new [total_hits] at least that many times the
    new [shot_count], [handle_shot_recording] raises [OverflowError] and
    returns no state. *)
Theorem shot_recording_overflow (prop_id : string) (others : list string)
    (state : gmap string pyval) (n h : Z) :
  get_or_zero state "shot_count" = VInt n ->
  get_or_zero state "total_hits" = VInt h ->
  (0 <= n)%Z ->
  let hit := String.eqb (split_head "." prop_id) "record-hit-btn" in
  let h' := (if hit then h + 1 else h)%Z in
  (overflow_threshold * (n + 1) <= h')%Z ->
  handle_shot_recording (prop_id :: others) state = Raise OverflowError.
Proof.
  intros Hn Hh Hpos hit h' Hhuge.
  rewrite (handle_shot_recording_ints prop_id others state n h Hn Hh Hpos).
  fold hit. fold h'. rewrite float_of_beyond_threshold; [reflexivity|].
  assert (Hq : inject_Z overflow_threshold <= inject_Z h' / inject_Z (n + 1)).
  { apply Qdiv_ge; [lia|assumption]. }
  rewrite Qabs_pos; [assumption|].
  apply Qle_trans with (inject_Z overflow_threshold); [discriminate|assumption].
Qed.

Lemma shot_recording_overflow_witness :
  handle_shot_recording ["record-miss-btn.n_clicks"] astronomic_hits
  = Raise OverflowError.
Proof.
  apply (shot_recording_overflow "record-miss-btn.n_clicks" [] astronomic_hits
           0 (2 ^ 1024));
    [reflexivity | reflexivity | lia | unfold overflow_threshold; simpl; lia].
Defined.

End ShotRecordingLaws.

(** ** Dashboard: bulk actions on the sliders *)

Section BulkActionLaws.

Lemma clamp_known_coefficient (x : pynum) (name : string)
    (config : gmap string pynum) :
  COEFFICIENT_CONFIG !! name = Some config ->
  exists r, clamp_coefficient_value x name = Ok r
            /\ within_configured_bounds name r.
Proof.
  intros Hcfg.
  destruct (COEFFICIENT_CONFIG_bounds _ _ Hcfg) as (lo & hi & Hlo & Hhi & Hle).
  destruct (py_max_min_clamped lo hi x Hle) as (H1 & H2 & _).
  exists (py_max lo (py_min x hi)). split.
  - unfold clamp_coefficient_value, getitem. rewrite Hcfg. simpl.
    rewrite Hlo. simpl. now rewrite Hhi.
  - now exists config, lo, hi.
Qed.

Lemma defaults_within_bounds :
  Forall2 within_configured_bounds COEFFICIENT_NAMES (map snd COEFFICIENT_DEFAULTS).
Proof.
  unfold COEFFICIENT_NAMES, COEFFICIENT_DEFAULTS. cbn [map fst snd].
  repeat (apply Forall2_cons_2 || apply Forall2_nil_2);
    (eexists _, _, _; split; [reflexivity|];
     split; [apply bounds_entry_lookup|];
     split; [apply bounds_entry_lookup|];
     split; reflexivity).
Qed.

Lemma names_configured :
  Forall (fun name => is_Some (COEFFICIENT_CONFIG !! name)) COEFFICIENT_NAMES.
Proof.
  unfold COEFFICIENT_NAMES, COEFFICIENT_DEFAULTS. cbn [map fst].
  repeat (apply Forall_cons_2 || apply Forall_nil_2); eexists; reflexivity.
Qed.

Lemma Qabs_inject_Z (z : Z) : Qabs (inject_Z z) = inject_Z (Z.abs z).
Proof. reflexivity. Qed.

(** The product of a slider value and a float: a number when the value
    converts, [OverflowError] otherwise. *)
Lemma py_mul_float_in_range (v : slider) (factor : pynum) :
  in_float_range v -> exists x, py_mul_float v factor = Ok x.
Proof.
  destruct v as [z|x]; intros H; [|now eexists].
  unfold py_mul_float. rewrite float_of_below_threshold.
  - now eexists.
  - rewrite Qabs_inject_Z, <- Zlt_Qlt. exact H.
Qed.

Lemma py_mul_float_overflow (v : slider) (factor : pynum) :
  ~ in_float_range v -> py_mul_float v factor = Raise OverflowError.
Proof.
  destruct v as [z|x]; intros H; [|now contradiction H].
  unfold py_mul_float. rewrite float_of_beyond_threshold; [reflexivity|].
  rewrite Qabs_inject_Z, <- Zle_Qle. cbn [in_float_range] in H. lia.
Qed.

Lemma py_mul_float_cases (v : slider) (factor : pynum) :
  (exists x, py_mul_float v factor = Ok x)
  \/ py_mul_float v factor = Raise OverflowError.
Proof.
  destruct v as [z|x]; [|left; now eexists].
  destruct (Z_lt_dec (Z.abs z) overflow_threshold) as [H|H].
  - left. now apply (py_mul_float_in_range (SInt z)).
  - right. now apply (py_mul_float_overflow (SInt z)).
Qed.

Lemma scale_in_range (factor : pynum) (vs : list slider) :
  forall names : list string,
  length vs = length names ->
  Forall (fun name => is_Some (COEFFICIENT_CONFIG !! name)) names ->
  Forall in_float_range vs ->
  exists new_values,
    traverse (fun '(v, name) => x ← py_mul_float v factor; clamp_coefficient_value x name)
      (zip vs names) = Ok new_values
    /\ Forall2 within_configured_bounds names new_values.
Proof.
  induction vs as [|v vs IH]; intros [|name names] Hlen Hcfg Hrange;
    try discriminate Hlen.
  - exists []. split; [reflexivity|constructor].
  - apply Forall_cons in Hcfg as [[config Hc] Hcfg].
    apply Forall_cons in Hrange as [Hv Hrange].
    injection Hlen as Hlen.
    destruct (py_mul_float_in_range v factor Hv) as [x Hx].
    destruct (clamp_known_coefficient x name config Hc) as (r & Hr & Hb).
    destruct (IH names Hlen Hcfg Hrange) as (rs & Hrs & Hbs).
    exists (r :: rs). split; [|now constructor].
    cbn [zip zip_with traverse]. rewrite Hx. cbn [mbind result_bind].
    rewrite Hr. cbn [mbind result_bind]. fold (zip vs names).
    now rewrite Hrs.
Qed.

Lemma scale_overflow (factor : pynum) (vs : list slider) :
  forall names : list string,
  length vs = length names ->
  Forall (fun name => is_Some (COEFFICIENT_CONFIG !! name)) names ->
  Exists (fun v => ~ in_float_range v) vs ->
  traverse (fun '(v, name) => x ← py_mul_float v factor; clamp_coefficient_value x name)
    (zip vs names) = Raise OverflowError.
Proof.
  induction vs as [|v vs IH]; intros [|name names] Hlen Hcfg Hex;
    try discriminate Hlen.
  - now apply Exists_nil in Hex.
  - apply Forall_cons in Hcfg as [[config Hc] Hcfg].
    injection Hlen as Hlen.
    cbn [zip zip_with traverse]. fold (zip vs names).
    destruct (py_mul_float_cases v factor) as [[x Hx]|Hx];
      rewrite Hx; cbn [mbind result_bind]; [|reflexivity].
    destruct (clamp_known_coefficient x name config Hc) as (r & Hr & Hb).
    rewrite Hr. cbn [mbind result_bind].
    apply Exists_cons in Hex as [Hv|Hex].
    + rewrite (py_mul_float_overflow v factor Hv) in Hx. discriminate Hx.
    + now rewrite (IH names Hlen Hcfg Hex).
Qed.

(** X16. The increase-all and decrease-all buttons, on sliders whose
    values convert to floats (floats, and [int]s below 2^1024 - 2^970 in
    magnitude), and the reset-all button on any sliders, return seven
    slider values that lie within the configured bounds of their
    coefficients, whatever the rounded products by 1.1 and 0.9 come to
    (an infinity or NaN included); increase and decrease leave the state
    as it is. *)
Theorem bulk_actions_stay_within_bounds (trigger : string)
    (drag_val grav_val shot_val target_val angle_val rpm_val velocity_val : slider)
    (state : gmap string pyval) :
  (trigger = "reset-all-coeff-btn.n_clicks"
   \/ (trigger = "increase-all-btn.n_clicks" \/ trigger = "decrease-all-btn.n_clicks")
      /\ Forall in_float_range
           [drag_val; grav_val; shot_val; target_val; angle_val; rpm_val; velocity_val]) ->
  exists (new_values : list pynum) (state' : gmap string pyval),
    handle_coefficient_bulk_actions [trigger]
      drag_val grav_val shot_val target_val angle_val rpm_val velocity_val state
    = Ok (Some (new_values, state'))
    /\ Forall2 within_configured_bounds COEFFICIENT_NAMES new_values
    /\ (trigger <> "reset-all-coeff-btn.n_clicks" -> state' = state).
Proof.
  intros [-> | [[-> | ->] Hrange]].
  - exists (map snd COEFFICIENT_DEFAULTS), (<["coefficient_values" := VOther]> state).
    split; [reflexivity|]. split; [apply defaults_within_bounds|].
    intros H. now contradiction H.
  - destruct (scale_in_range lit_1_1
                [drag_val; grav_val; shot_val; target_val; angle_val; rpm_val; velocity_val]
                COEFFICIENT_NAMES eq_refl names_configured Hrange)
      as (vs & E & B).
    exists vs, state. split; [|split; [exact B | reflexivity]].
    unfold handle_coefficient_bulk_actions.
    change (split_head "." "increase-all-btn.n_clicks") with "increase-all-btn".
    cbn [String.eqb Ascii.eqb Bool.eqb]. now rewrite E.
  - destruct (scale_in_range lit_0_9
                [drag_val; grav_val; shot_val; target_val; angle_val; rpm_val; velocity_val]
                COEFFICIENT_NAMES eq_refl names_configured Hrange)
      as (vs & E & B).
    exists vs, state. split; [|split; [exact B | reflexivity]].
    unfold handle_coefficient_bulk_actions.
    change (split_head "." "decrease-all-btn.n_clicks") with "decrease-all-btn".
    cbn [String.eqb Ascii.eqb Bool.eqb]. now rewrite E.
Qed.

Lemma bulk_actions_stay_within_bounds_witness :
  exists (new_values : list pynum) (state' : gmap string pyval),
    handle_coefficient_bulk_actions ["increase-all-btn.n_clicks"]
      (SFloat lit_0_003) (SFloat lit_9_81) (SInt 1) (SFloat (Fin (5 # 2)))
      (SInt 45) (SInt 3000) (SInt 15) three_shots
    = Ok (Some (new_values, state'))
    /\ Forall2 within_configured_bounds COEFFICIENT_NAMES new_values
    /\ ("increase-all-btn.n_clicks" <> "reset-all-coeff-btn.n_clicks"
        -> state' = three_shots).
Proof.
  apply (bulk_actions_stay_within_bounds "increase-all-btn.n_clicks").
  right. split; [now left|].
  repeat (apply Forall_cons_2 || apply Forall_nil_2); simpl; try exact I;
    unfold overflow_threshold; lia.
Defined.

(** X19. An [int] on a slider that is 2^1024 - 2^970 or more in
    magnitude converts to no float: the increase-all and decrease-all
    buttons raise [OverflowError] and return nothing. *)
Theorem bulk_actions_overflow (trigger : string)
    (drag_val grav_val shot_val target_val angle_val rpm_val velocity_val : slider)
    (state : gmap string pyval) :
  trigger = "increase-all-btn.n_clicks" \/ trigger = "decrease-all-btn.n_clicks" ->
  Exists (fun v => ~ in_float_range v)
    [drag_val; grav_val; shot_val; target_val; angle_val; rpm_val; velocity_val] ->
  handle_coefficient_bulk_actions [trigger]
    drag_val grav_val shot_val target_val angle_val rpm_val velocity_val state
  = Raise OverflowError.
Proof.
  intros [-> | ->] Hex.
  - unfold handle_coefficient_bulk_actions.
    change (split_head "." "increase-all-btn.n_clicks") with "increase-all-btn".
    cbn [String.eqb Ascii.eqb Bool.eqb].
    now rewrite (scale_overflow lit_1_1
                   [drag_val; grav_val; shot_val; target_val; angle_val; rpm_val; velocity_val]
                   COEFFICIENT_NAMES eq_refl names_configured Hex).
  - unfold handle_coefficient_bulk_actions.
    change (split_head "." "decrease-all-btn.n_clicks") with "decrease-all-btn".
    cbn [String.eqb Ascii.eqb Bool.eqb].
    now rewrite (scale_overflow lit_0_9
                   [drag_val; grav_val; shot_val; target_val; angle_val; rpm_val; velocity_val]
                   COEFFICIENT_NAMES eq_refl names_configured Hex).
Qed.

Lemma bulk_actions_overflow_witness :
  handle_coefficient_bulk_actions ["decrease-all-btn.n_clicks"]
    (SFloat lit_0_003) (SFloat lit_9_81) (SInt 1) (SFloat (Fin (5 # 2)))
    (SInt 45) (SInt (2 ^ 1024)) (SInt 15) three_shots
  = Raise OverflowError.
Proof.
  apply (bulk_actions_overflow "decrease-all-btn.n_clicks"); [now right|].
  do 5 apply Exists_cons_tl. apply Exists_cons_hd.
  unfold in_float_range, overflow_threshold. lia.
Defined.

End BulkActionLaws.

(** ** The mock table of the simulated communication test *)

Section MockTable.

Lemma full_path_inj (self : MockNetworkTable) (key key' : string) :
  full_path self key = full_path self key' -> key = key'.
Proof.
  unfold full_path. intros H.
  apply (inj (String.app (base_path self))) in H.
  now apply (inj (String.app "/")) in H.
Qed.

(** X17. A value put under a key is what any of the getters returns for that
    key afterwards, with no check of its type; the put returns the full
    path [base/key], keeps the base path, and changes what is read under
    no other key. *)
Theorem mock_table_put_get (self : MockNetworkTable) (key : string)
    (value dflt : pyval) :
  fst (put self key value) = base_path self +:+ "/" +:+ key
  /\ base_path (snd (put self key value)) = base_path self
  /\ get (snd (put self key value)) key dflt = value
  /\ (forall key', key' <> key ->
        get (snd (put self key value)) key' dflt = get self key' dflt).
Proof.
  unfold put, get. cbn [fst snd data base_path].
  split; [reflexivity|]. split; [reflexivity|]. split.
  - change (full_path {| base_path := base_path self; data := _ |} key)
      with (full_path self key).
    now rewrite lookup_insert_eq.
  - intros key' Hne.
    change (full_path {| base_path := base_path self; data := _ |} key')
      with (full_path self key').
    rewrite lookup_insert_ne; [reflexivity|].
    intros E. apply Hne. symmetry. now apply full_path_inj in E.
Qed.

Lemma mock_table_put_get_witness :
  get (snd (put firing_solver_table "ShotTimestamp" (VFloat lit_9_81)))
      "Hit" (VBool false) = get firing_solver_table "Hit" (VBool false).
Proof.
  apply (mock_table_put_get firing_solver_table "ShotTimestamp" (VFloat lit_9_81)).
  discriminate.
Defined.

End MockTable.
